(** * A shallow embedding of [blockchain_app.py]

    The ledger engine of the application: block hashing, proof-of-work
    mining, block validation, UTXO-pool maintenance and the endpoints
    that drive them.  Python objects become records, the module-level
    [blockchain] object becomes an explicit state threaded through a
    small state-and-exception monad, and the unbounded [while] loop of
    [mine_block] becomes a fuelled fixpoint. *)

From Stdlib Require Import ZArith Ascii String List Lia DecimalString.
From Stdlib.Strings Require Import Byte.
From Stdlib.Floats Require Import PrimFloat SpecFloat FloatOps.
From stdpp Require Import gmap strings list fin_maps.

#[local] Set Warnings "-register-all".

Local Open Scope Z_scope.

(** ** [hashlib.sha256]

    FIPS 180-4 over a list of bytes.  A 32-bit word is a [Z] in
    [0, 2^32); additions wrap around explicitly. *)

Module SHA256.

Definition mask32 : Z := 0xffffffff.

Definition add32 (x y : Z) : Z := Z.land (x + y) mask32.

Definition rotr (n x : Z) : Z :=
  Z.lor (Z.shiftr x n) (Z.land (Z.shiftl x (32 - n)) mask32).

Definition shr (n x : Z) : Z := Z.shiftr x n.

Definition Ch (x y z : Z) : Z :=
  Z.lxor (Z.land x y) (Z.land (Z.lxor x mask32) z).

Definition Maj (x y z : Z) : Z :=
  Z.lxor (Z.lxor (Z.land x y) (Z.land x z)) (Z.land y z).

Definition Sigma0 (x : Z) : Z := Z.lxor (Z.lxor (rotr 2 x) (rotr 13 x)) (rotr 22 x).
Definition Sigma1 (x : Z) : Z := Z.lxor (Z.lxor (rotr 6 x) (rotr 11 x)) (rotr 25 x).
Definition sigma0 (x : Z) : Z := Z.lxor (Z.lxor (rotr 7 x) (rotr 18 x)) (shr 3 x).
Definition sigma1 (x : Z) : Z := Z.lxor (Z.lxor (rotr 17 x) (rotr 19 x)) (shr 10 x).

(** The constants are the leading fractional bits of the square and cube
    roots of the first primes; they are computed rather than tabulated. *)

Definition is_prime (n : Z) : bool :=
  (1 <? n) && forallb (fun d => negb (n mod d =? 0)) (map Z.of_nat (seq 2 (Z.to_nat n - 2))).

Definition primes64 : list Z :=
  Eval vm_compute in filter is_prime (map Z.of_nat (seq 2 310)).

(** Largest [r] below [2^bits] with [r^3 <= n]. *)
Fixpoint icbrt_bits (bits : nat) (n r : Z) : Z :=
  match bits with
  | O => r
  | S b =>
      let c := r + Z.shiftl 1 (Z.of_nat b) in
      icbrt_bits b n (if c * c * c <=? n then c else r)
  end.

Definition frac_cbrt32 (p : Z) : Z := Z.land (icbrt_bits 40 (Z.shiftl p 96) 0) mask32.
Definition frac_sqrt32 (p : Z) : Z := Z.land (Z.sqrt (Z.shiftl p 64)) mask32.

Definition K : list Z := Eval vm_compute in map frac_cbrt32 primes64.
Definition H0 : list Z := Eval vm_compute in map frac_sqrt32 (firstn 8 primes64).

(** Big-endian encoding of [x] on [n] bytes. *)
Fixpoint be_bytes (n : nat) (x : Z) : list Z :=
  match n with
  | O => []
  | S m => Z.land (Z.shiftr x (8 * Z.of_nat m)) 0xff :: be_bytes m x
  end.

Definition pad (msg : list Z) : list Z :=
  let len := Z.of_nat (length msg) in
  let zeros := Z.to_nat ((55 - len) mod 64) in
  msg ++ 0x80 :: repeat 0 zeros ++ be_bytes 8 (8 * len).

Fixpoint be_words (n : nat) (bs : list Z) : list Z :=
  match n, bs with
  | S m, b3 :: b2 :: b1 :: b0 :: rest =>
      Z.lor (Z.shiftl b3 24) (Z.lor (Z.shiftl b2 16) (Z.lor (Z.shiftl b1 8) b0))
      :: be_words m rest
  | _, _ => []
  end.

Fixpoint chunks (n : nat) (bs : list Z) : list (list Z) :=
  match n with
  | O => []
  | S m => match bs with
           | [] => []
           | _ => be_words 16 bs :: chunks m (skipn 64 bs)
           end
  end.

Record regs := Regs { ra : Z; rb : Z; rc : Z; rd : Z; re : Z; rf : Z; rg : Z; rh : Z }.

(** One round.  The window holds the sixteen schedule words
    [W t .. W (t+15)]; it slides by one word per round. *)
Definition round (st : regs * list Z) (k : Z) : regs * list Z :=
  let '(r, w) := st in
  let wt := nth 0 w 0 in
  let t1 := add32 (add32 (add32 (add32 (rh r) (Sigma1 (re r))) (Ch (re r) (rf r) (rg r))) k) wt in
  let t2 := add32 (Sigma0 (ra r)) (Maj (ra r) (rb r) (rc r)) in
  let wnew := add32 (add32 (add32 (sigma1 (nth 14 w 0)) (nth 9 w 0)) (sigma0 (nth 1 w 0))) wt in
  (Regs (add32 t1 t2) (ra r) (rb r) (rc r) (add32 (rd r) t1) (re r) (rf r) (rg r),
   tl w ++ [wnew]).

Definition regs_of (h : list Z) : regs :=
  Regs (nth 0 h 0) (nth 1 h 0) (nth 2 h 0) (nth 3 h 0)
       (nth 4 h 0) (nth 5 h 0) (nth 6 h 0) (nth 7 h 0).

Definition list_of (r : regs) : list Z :=
  [ra r; rb r; rc r; rd r; re r; rf r; rg r; rh r].

Definition compress (h : list Z) (w : list Z) : list Z :=
  let r := fst (fold_left round K (regs_of h, w)) in
  map (fun p => add32 (fst p) (snd p)) (combine h (list_of r)).

Definition digest_words (msg : list Z) : list Z :=
  let padded := pad msg in
  fold_left compress (chunks (length padded) padded) H0.

Definition hex_digit (d : Z) : ascii :=
  ascii_of_N (Z.to_N (if d <? 10 then 48 + d else 87 + d)).

Fixpoint hex_of (digits : nat) (x : Z) : string :=
  match digits with
  | O => EmptyString
  | S m => String (hex_digit (Z.land (Z.shiftr x (4 * Z.of_nat m)) 0xf)) (hex_of m x)
  end.

(** [hashlib.sha256(data).hexdigest()] *)
Definition hexdigest (data : list byte) : string :=
  String.concat "" (map (hex_of 8) (digest_words (map (fun b => Z.of_N (Byte.to_N b)) data))).

End SHA256.

(** ** Python strings, bytes and numbers

    A [str] is a [string] whose characters are the code points
    [U+0000 .. U+00FF]; a [bytes] object is a [list byte]; an [int] is a
    [Z]; a [float] is an IEEE double. *)

Definition bytes := list byte.

Definition byte_of_Z (n : Z) : byte := byte_of_ascii (ascii_of_N (Z.to_N n)).

Definition ord (c : ascii) : Z := Z.of_N (N_of_ascii c).

(** [str.encode()]: UTF-8. *)
Definition encode_char (c : ascii) : bytes :=
  let n := ord c in
  if n <? 128 then [byte_of_Z n]
  else [byte_of_Z (Z.lor 0xC0 (Z.shiftr n 6)); byte_of_Z (Z.lor 0x80 (Z.land n 0x3F))].

Definition encode (s : string) : bytes :=
  flat_map encode_char (list_ascii_of_string s).

(** [int.__repr__] *)
Definition int_repr (n : Z) : string := NilZero.string_of_int (Z.to_int n).

(** [s.startswith(prefix)] *)
Definition startswith (s prefix : string) : bool := String.prefix prefix s.

(** ["0" * n]; a negative count gives the empty string. *)
Definition zeros (n : Z) : string :=
  string_of_list_ascii (repeat "0"%char (Z.to_nat n)).

(** *** [float.__repr__]

    The shortest decimal string that reads back as the same double, the
    closest one to the exact value when there are several, laid out as
    Python does: positional notation when the decimal point falls within
    [-4 < decpt <= 16], exponent notation otherwise. *)

Module FloatRepr.

(** A positive rational [num / den]. *)
Definition scaled (n e : Z) : Z * Z :=
  if 0 <=? e then (n * 2 ^ e, 1) else (n, 2 ^ (- e)).

Definition pow10 (k : Z) : Z * Z :=
  if 0 <=? k then (10 ^ k, 1) else (1, 10 ^ (- k)).

Definition qlt (a b : Z * Z) : bool := fst a * snd b <? fst b * snd a.
Definition qle (a b : Z * Z) : bool := fst a * snd b <=? fst b * snd a.
Definition qmul (a b : Z * Z) : Z * Z := (fst a * fst b, snd a * snd b).
Definition qfloor_div (a b : Z * Z) : Z := (fst a * snd b) / (snd a * fst b).
(** [|a - b|] *)
Definition qdist (a b : Z * Z) : Z * Z :=
  (Z.abs (fst a * snd b - fst b * snd a), snd a * snd b).

(** The least [k] from [k0] on with [v < 10^k]. *)
Fixpoint decpt_from (fuel : nat) (v : Z * Z) (k : Z) : Z :=
  match fuel with
  | O => k
  | S f => if qlt v (pow10 k) then k else decpt_from f v (k + 1)
  end.

Definition decpt_of (m e : Z) : Z :=
  let bits := Z.log2 m + 1 + e in
  decpt_from 8 (scaled m e) ((bits * 30102) / 100000 - 2).

Fixpoint digits_of (n : nat) (d : Z) : list Z :=
  match n with
  | O => []
  | S k => digits_of k (d / 10) ++ [d mod 10]
  end.

Fixpoint strip_zeros_rev (l : list Z) : list Z :=
  match l with
  | 0 :: r => strip_zeros_rev r
  | _ => l
  end.

Definition strip_trailing_zeros (l : list Z) : list Z :=
  rev (strip_zeros_rev (rev l)).

(** Try [n] significant digits: the two neighbours of [v] on the grid
    of step [10^(k-n)], kept when they read back as [v]. *)
Definition try_digits (v low high : Z * Z) (closed : bool) (k : Z) (n : nat)
  : option (list Z * Z) :=
  let step := pow10 (k - Z.of_nat n) in
  let d := qfloor_div v step in
  let inside c :=
    let x := qmul (c, 1) step in
    if closed then qle low x && qle x high else qlt low x && qlt x high in
  let pick c :=
    if c =? 10 ^ Z.of_nat n then Some ([1], k + 1)
    else Some (strip_trailing_zeros (digits_of n c), k) in
  let dl := qdist v (qmul (d, 1) step) in
  let dh := qdist v (qmul (d + 1, 1) step) in
  match inside d, inside (d + 1) with
  | true, true =>
      if qlt dl dh then pick d
      else if qlt dh dl then pick (d + 1)
      else if Z.even d then pick d else pick (d + 1)
  | true, false => pick d
  | false, true => pick (d + 1)
  | false, false => None
  end.

Fixpoint shortest_from (fuel : nat) (v low high : Z * Z) (closed : bool) (k : Z) (n : nat)
  : list Z * Z :=
  match try_digits v low high closed k n with
  | Some r => r
  | None =>
      match fuel with
      | O => (digits_of n (qfloor_div v (pow10 (k - Z.of_nat n))), k)
      | S f => shortest_from f v low high closed k (S n)
      end
  end.

(** Digits and decimal point of the shortest representation of
    [m * 2^e], a double with mantissa [m] and exponent [e]. *)
Definition shortest (m e : Z) : list Z * Z :=
  let v := scaled (4 * m) (e - 2) in
  let high := scaled (4 * m + 2) (e - 2) in
  let low :=
    if (m =? 2 ^ 52) && (-1074 <? e)
    then scaled (4 * m - 1) (e - 2) else scaled (4 * m - 2) (e - 2) in
  shortest_from 17 v low high (Z.even m) (decpt_of m e) 1.

Definition digit_char (d : Z) : ascii := ascii_of_N (Z.to_N (48 + d)).

Definition digit_string (l : list Z) : string :=
  string_of_list_ascii (map digit_char l).

Definition layout (ds : list Z) (decpt : Z) : string :=
  let n := Z.of_nat (length ds) in
  if (decpt <=? -4) || (16 <? decpt) then
    let ex := decpt - 1 in
    let mant :=
      match ds with
      | [] => ""
      | [d] => digit_string [d]
      | d :: r => digit_string [d] +:+ "." +:+ digit_string r
      end in
    let exs := int_repr (Z.abs ex) in
    mant +:+ "e" +:+ (if ex <? 0 then "-" else "+")
         +:+ (if Z.abs ex <? 10 then "0" else "") +:+ exs
  else if decpt <=? 0 then
    "0." +:+ zeros (- decpt) +:+ digit_string ds
  else if decpt <? n then
    digit_string (firstn (Z.to_nat decpt) ds) +:+ "."
      +:+ digit_string (skipn (Z.to_nat decpt) ds)
  else
    digit_string ds +:+ zeros (decpt - n) +:+ ".0".

Definition repr (x : float) : string :=
  match Prim2SF x with
  | S754_zero s => if s then "-0.0" else "0.0"
  | S754_infinity s => if s then "-inf" else "inf"
  | S754_nan => "nan"
  | S754_finite s m e =>
      let '(ds, decpt) := shortest (Zpos m) e in
      (if s then "-" else "") +:+ layout ds decpt
  end.

End FloatRepr.

Definition float_repr : float -> string := FloatRepr.repr.

(** ** [json.dumps]

    The values the application serialises: integers, floats, strings,
    lists and dictionaries.  A dictionary is the list of its items in
    insertion order, which is the order [json.dumps] writes them in
    unless [sort_keys] is set. *)

Inductive json :=
| JInt (n : Z)
| JFloat (x : float)
| JStr (s : string)
| JList (l : list json)
| JDict (items : list (string * json)).

Module Json.

Definition dquote : string := String (ascii_of_N 34) EmptyString.
Definition backslash : string := String (ascii_of_N 92) EmptyString.

(** [json.encoder.py_encode_basestring_ascii] *)
Definition escape_char (c : ascii) : string :=
  let n := ord c in
  if n =? 34 then backslash +:+ dquote
  else if n =? 92 then backslash +:+ backslash
  else if n =? 10 then backslash +:+ "n"
  else if n =? 13 then backslash +:+ "r"
  else if n =? 9 then backslash +:+ "t"
  else if n =? 12 then backslash +:+ "f"
  else if n =? 8 then backslash +:+ "b"
  else if (32 <=? n) && (n <=? 126) then String c EmptyString
  else backslash +:+ "u" +:+ SHA256.hex_of 4 n.

Definition encode_basestring_ascii (s : string) : string :=
  dquote +:+ String.concat "" (List.map escape_char (list_ascii_of_string s)) +:+ dquote.

(** [json.encoder.floatstr] *)
Definition floatstr (x : float) : string :=
  match Prim2SF x with
  | S754_nan => "NaN"
  | S754_infinity false => "Infinity"
  | S754_infinity true => "-Infinity"
  | _ => float_repr x
  end.

(** [sorted(dct.items())] on the keys. *)
Fixpoint insert_item (kv : string * string) (l : list (string * string)) : list (string * string) :=
  match l with
  | [] => [kv]
  | kv' :: r => if String.leb (fst kv) (fst kv') then kv :: l else kv' :: insert_item kv r
  end.

Definition sort_items (l : list (string * string)) : list (string * string) :=
  fold_right insert_item [] l.

Definition item (kv : string * string) : string :=
  encode_basestring_ascii (fst kv) +:+ ": " +:+ snd kv.

(** [json.dumps(v)] and [json.dumps(v, sort_keys=True)] *)
Fixpoint dumps (sort_keys : bool) (v : json) : string :=
  match v with
  | JInt n => int_repr n
  | JFloat x => floatstr x
  | JStr s => encode_basestring_ascii s
  | JList l => "[" +:+ String.concat ", " (List.map (dumps sort_keys) l) +:+ "]"
  | JDict items =>
      let enc := List.map (fun kv => let '(k, x) := kv in (k, dumps sort_keys x)) items in
      let enc := if sort_keys then sort_items enc else enc in
      "{" +:+ String.concat ", " (List.map item enc) +:+ "}"
  end.

End Json.

(** ** The data model *)

Module Transaction.

Record t := mk {
  id : string;
  sender : string;
  receiver : string;
  amount : float;
  input_utxos : list string;
  output_utxos : list string;
  signature : string;
}.

(** [tx.dict()] *)
Definition dict (tx : t) : json :=
  JDict [("id", JStr (id tx));
         ("sender", JStr (sender tx));
         ("receiver", JStr (receiver tx));
         ("amount", JFloat (amount tx));
         ("input_utxos", JList (List.map JStr (input_utxos tx)));
         ("output_utxos", JList (List.map JStr (output_utxos tx)));
         ("signature", JStr (signature tx))].

End Transaction.

Module Block.

Record t := mk {
  index : Z;
  timestamp : float;
  transactions : list Transaction.t;
  previous_hash : string;
  nonce : Z;
  hash : string;
}.

Definition set_nonce (n : Z) (b : t) : t :=
  mk (index b) (timestamp b) (transactions b) (previous_hash b) n (hash b).

Definition set_hash (h : string) (b : t) : t :=
  mk (index b) (timestamp b) (transactions b) (previous_hash b) (nonce b) h.

End Block.

Module UTXO.

Record t := mk {
  transaction_id : string;
  amount : float;
  is_spent : bool;
}.

Definition set_is_spent (v : bool) (u : t) : t :=
  mk (transaction_id u) (amount u) v.

End UTXO.

(** ** Exceptions and the state monad

    A call returns a value, raises, or (for the mining loop, when the
    fuel runs out) has not returned yet.  The state after a raise is
    the state at the point of the raise: nothing is rolled back. *)

Inductive exn :=
| HTTPException (status_code : Z) (detail : string)
| IndexError
| ValueError
| BadSignatureError
| MalformedPointError.

Inductive outcome (A : Type) :=
| Return (a : A)
| Raise (e : exn)
| Diverge.

Arguments Return {A} a.
Arguments Raise {A} e.
Arguments Diverge {A}.

Section Monad.
Context {S : Type}.

Definition M (A : Type) : Type := S -> outcome A * S.

Definition ret {A} (a : A) : M A := fun s => (Return a, s).

Definition bind {A B} (m : M A) (k : A -> M B) : M B :=
  fun s =>
    match m s with
    | (Return a, s') => k a s'
    | (Raise e, s') => (Raise e, s')
    | (Diverge, s') => (Diverge, s')
    end.

Definition raise {A} (e : exn) : M A := fun s => (Raise e, s).
Definition get : M S := fun s => (Return s, s).
Definition put (s : S) : M unit := fun _ => (Return tt, s).
Definition modify (f : S -> S) : M unit := fun s => (Return tt, f s).

(** A pure computation that may raise or run out of fuel. *)
Definition lift {A} (o : outcome A) : M A := fun s => (o, s).

(** [try: m  except <the exceptions h handles>: h e] *)
Definition try_except {A} (m : M A) (h : exn -> option (M A)) : M A :=
  fun s =>
    match m s with
    | (Raise e, s') => match h e with Some k => k s' | None => (Raise e, s') end
    | r => r
    end.
End Monad.

Arguments M S A : clear implicits.

Notation "'let*' x ':=' m 'in' k" := (bind m (fun x => k))
  (at level 10, x pattern, m at level 100, k at level 200).

(** ** The ledger *)

Module Blockchain.

Record t := mk {
  chain : list Block.t;
  pending_transactions : list Transaction.t;
  utxo_pool : gmap string UTXO.t;
  difficulty : Z;
}.

Definition set_chain (c : list Block.t) (self : t) : t :=
  mk c (pending_transactions self) (utxo_pool self) (difficulty self).

Definition set_pending_transactions (p : list Transaction.t) (self : t) : t :=
  mk (chain self) p (utxo_pool self) (difficulty self).

Definition set_utxo_pool (u : gmap string UTXO.t) (self : t) : t :=
  mk (chain self) (pending_transactions self) u (difficulty self).

(** The dictionary [block_data] of [compute_hash]. *)
Definition block_data (block : Block.t) : json :=
  JDict [("index", JInt (Block.index block));
         ("timestamp", JFloat (Block.timestamp block));
         ("transactions", JList (List.map Transaction.dict (Block.transactions block)));
         ("previous_hash", JStr (Block.previous_hash block));
         ("nonce", JInt (Block.nonce block))].

Definition compute_hash (block : Block.t) : string :=
  let encoded_block := encode (Json.dumps true (block_data block)) in
  SHA256.hexdigest encoded_block.

(** [self.chain[-1]] *)
Definition chain_last : M t Block.t :=
  let* self := get in
  match last (chain self) with
  | Some b => ret b
  | None => raise IndexError
  end.

Definition create_genesis_block (now : float) : M t unit :=
  let genesis_block := Block.mk 0 now [] "0" 0 "" in
  let genesis_block := Block.set_hash (compute_hash genesis_block) genesis_block in
  modify (fun self => set_chain (chain self ++ [genesis_block]) self).

(** [Blockchain()]; [now] is what [time.time()] returns. *)
Definition init (now : float) : t :=
  snd (create_genesis_block now (mk [] [] ∅ 4)).

(** The [while] loop of [mine_block], with at most [fuel] iterations. *)
Fixpoint mine_loop (difficulty : Z) (fuel : nat) (new_block : Block.t) : outcome Block.t :=
  if startswith (Block.hash new_block) (zeros difficulty) then Return new_block
  else
    match fuel with
    | O => Diverge
    | S fuel' =>
        let new_block := Block.set_nonce (Block.nonce new_block + 1) new_block in
        let new_block := Block.set_hash (compute_hash new_block) new_block in
        mine_loop difficulty fuel' new_block
    end.

(** The body of the first inner loop of [update_utxo_pool]. *)
Definition spend (pool : gmap string UTXO.t) (utxo_id : string) : gmap string UTXO.t :=
  match pool !! utxo_id with
  | Some u => <[utxo_id := UTXO.set_is_spent true u]> pool
  | None => pool
  end.

(** The body of the second inner loop. *)
Definition create (transaction : Transaction.t) (pool : gmap string UTXO.t)
    (out : string * float) : gmap string UTXO.t :=
  let '(utxo_id, amount) := out in
  <[utxo_id := UTXO.mk (Transaction.id transaction) amount false]> pool.

(** The body of the outer loop; [combine] is Python's [zip]. *)
Definition apply_transaction (pool : gmap string UTXO.t) (transaction : Transaction.t)
  : gmap string UTXO.t :=
  let pool := fold_left spend (Transaction.input_utxos transaction) pool in
  fold_left (create transaction)
    (combine (Transaction.output_utxos transaction) [Transaction.amount transaction]) pool.

Definition apply_block (block : Block.t) (pool : gmap string UTXO.t) : gmap string UTXO.t :=
  fold_left apply_transaction (Block.transactions block) pool.

Definition update_utxo_pool (block : Block.t) : M t unit :=
  modify (fun self => set_utxo_pool (apply_block block (utxo_pool self)) self).

(** The block [mine_block] starts its search from. *)
Definition candidate (self : t) (last_block : Block.t) (now : float) : Block.t :=
  Block.mk (Block.index last_block + 1) now (pending_transactions self)
           (Block.hash last_block) 0 "".

Definition mine_block (now : float) (fuel : nat) : M t Block.t :=
  let* self := get in
  match pending_transactions self with
  | [] => raise (HTTPException 400 "No transactions to mine.")
  | _ =>
      let* last_block := chain_last in
      let new_block := candidate self last_block now in
      let* new_block := lift (mine_loop (difficulty self) fuel new_block) in
      let* _ := modify (fun self => set_chain (chain self ++ [new_block]) self) in
      let* _ := modify (set_pending_transactions []) in
      let* _ := update_utxo_pool new_block in
      ret new_block
  end.

Definition validate_block (self : t) (block : Block.t) : bool :=
  if negb (String.eqb (Block.hash block) (compute_hash block)) then false
  else if negb (startswith (Block.hash block) (zeros (difficulty self))) then false
  else true.

End Blockchain.

(** ** The endpoints

    The state is the module-level [blockchain] object.  An endpoint
    returns the object its response carries. *)

Definition new_transaction (transaction : Transaction.t) : M Blockchain.t Transaction.t :=
  let* _ := modify (fun blockchain =>
    Blockchain.set_pending_transactions
      (Blockchain.pending_transactions blockchain ++ [transaction]) blockchain) in
  ret transaction.

Definition mine_block (now : float) (fuel : nat) : M Blockchain.t Block.t :=
  try_except (Blockchain.mine_block now fuel)
    (fun e => match e with
              | HTTPException _ _ => Some (raise e)
              | _ => None
              end).

Definition add_block (block : Block.t) : M Blockchain.t Block.t :=
  let* last_block := Blockchain.chain_last in
  if negb (String.eqb (Block.previous_hash block) (Block.hash last_block)) then
    raise (HTTPException 400 "Invalid previous hash.")
  else
    let* blockchain := get in
    if negb (Blockchain.validate_block blockchain block) then
      raise (HTTPException 400 "Invalid block.")
    else
      let* _ := modify (fun blockchain =>
        Blockchain.set_chain (Blockchain.chain blockchain ++ [block]) blockchain) in
      let* _ := Blockchain.update_utxo_pool block in
      ret block.

(** *** Signature verification

    [bytes.fromhex] skips ASCII whitespace between bytes and raises
    [ValueError] on anything that is not a pair of hexadecimal digits. *)

Definition hex_value (c : ascii) : option Z :=
  let n := ord c in
  if (48 <=? n) && (n <=? 57) then Some (n - 48)
  else if (97 <=? n) && (n <=? 102) then Some (n - 87)
  else if (65 <=? n) && (n <=? 70) then Some (n - 55)
  else None.

Definition is_space (c : ascii) : bool :=
  let n := ord c in (n =? 32) || ((9 <=? n) && (n <=? 13)).

Fixpoint fromhex_chars (l : list ascii) : outcome bytes :=
  match l with
  | [] => Return []
  | c :: r =>
      if is_space c then fromhex_chars r
      else
        match hex_value c, r with
        | Some top, c' :: r' =>
            match hex_value c' with
            | Some bot =>
                match fromhex_chars r' with
                | Return bs => Return (byte_of_Z (16 * top + bot) :: bs)
                | o => o
                end
            | None => Raise ValueError
            end
        | _, _ => Raise ValueError
        end
  end.

Definition bytes_fromhex (s : string) : outcome bytes :=
  fromhex_chars (list_ascii_of_string s).

(** The [ecdsa] package is taken as given: a type of verifying keys,
    [VerifyingKey.from_string(..., curve=SECP256k1)] and
    [VerifyingKey.verify(signature, data)], each of which may raise. *)

Section Ecdsa.
Variable VerifyingKey : Type.
Variable VerifyingKey_from_string : bytes -> outcome VerifyingKey.
Variable VerifyingKey_verify : VerifyingKey -> bytes -> bytes -> outcome bool.

Definition verify_signature (public_key : VerifyingKey) (data signature : string)
  : outcome bool :=
  let attempt :=
    match bytes_fromhex signature with
    | Return sig => VerifyingKey_verify public_key sig (encode data)
    | Raise e => Raise e
    | Diverge => Diverge
    end in
  match attempt with
  | Raise BadSignatureError => Return false
  | o => o
  end.

(** The loop over [transaction.input_utxos]. *)
Fixpoint check_inputs (input_utxos : list string) : M Blockchain.t unit :=
  match input_utxos with
  | [] => ret tt
  | utxo_id :: rest =>
      let* blockchain := get in
      match Blockchain.utxo_pool blockchain !! utxo_id with
      | Some u =>
          if UTXO.is_spent u
          then raise (HTTPException 400 ("Invalid or spent UTXO: " +:+ utxo_id))
          else check_inputs rest
      | None => raise (HTTPException 400 ("Invalid or spent UTXO: " +:+ utxo_id))
      end
  end.

(** The string the signature is checked against. *)
Definition signed_data (transaction : Transaction.t) : string :=
  Json.dumps false (Transaction.dict transaction).

Definition verify_transaction (transaction : Transaction.t) : M Blockchain.t unit :=
  let* _ := check_inputs (Transaction.input_utxos transaction) in
  let* key_bytes := lift (bytes_fromhex (Transaction.sender transaction)) in
  let* public_key := lift (VerifyingKey_from_string key_bytes) in
  let* is_valid := lift (verify_signature public_key (signed_data transaction)
                           (Transaction.signature transaction)) in
  if negb is_valid then raise (HTTPException 400 "Invalid transaction signature.")
  else ret tt.
End Ecdsa.

Arguments verify_signature {VerifyingKey} VerifyingKey_verify public_key data signature.
Arguments verify_transaction {VerifyingKey} VerifyingKey_from_string VerifyingKey_verify
  transaction _.

(** The failures the endpoints report, under the names the specification
    gives them. *)
Definition EmptyPendingQueue : exn := HTTPException 400 "No transactions to mine.".
Definition PreviousHashMismatch : exn := HTTPException 400 "Invalid previous hash.".
Definition InvalidBlockHash : exn := HTTPException 400 "Invalid block.".
Definition UnspentInputMissing (utxo_id : string) : exn :=
  HTTPException 400 ("Invalid or spent UTXO: " +:+ utxo_id).
Definition InvalidSignature : exn := HTTPException 400 "Invalid transaction signature.".

(** ** Reachable states and the properties stated about them

    The ledger starts from [Blockchain()] and changes only through
    [/new_transaction], [/mine_block] and [/add_block]; the other
    endpoints only read it. *)

Inductive reachable : Blockchain.t -> Prop :=
| reachable_init now :
    reachable (Blockchain.init now)
| reachable_new_transaction blockchain transaction :
    reachable blockchain ->
    reachable (snd (new_transaction transaction blockchain))
| reachable_mine_block blockchain now fuel :
    reachable blockchain ->
    reachable (snd (mine_block now fuel blockchain))
| reachable_add_block blockchain block :
    reachable blockchain ->
    reachable (snd (add_block block blockchain)).

(** Reachable through [/new_transaction] and [/mine_block] alone. *)
Inductive mined_only : Blockchain.t -> Prop :=
| mined_only_init now :
    mined_only (Blockchain.init now)
| mined_only_new_transaction blockchain transaction :
    mined_only blockchain ->
    mined_only (snd (new_transaction transaction blockchain))
| mined_only_mine_block blockchain now fuel :
    mined_only blockchain ->
    mined_only (snd (mine_block now fuel blockchain)).

(** The spent flag of an identifier; false when it is not in the pool. *)
Definition spent (pool : gmap string UTXO.t) (utxo_id : string) : bool :=
  match pool !! utxo_id with
  | Some u => UTXO.is_spent u
  | None => false
  end.

Definition linked (chain : list Block.t) : Prop :=
  forall (i : nat) (b b' : Block.t),
    chain !! i = Some b -> chain !! S i = Some b' ->
    Block.previous_hash b' = Block.hash b.

Definition indices_increasing (chain : list Block.t) : Prop :=
  forall (i : nat) (b b' : Block.t),
    chain !! i = Some b -> chain !! S i = Some b' ->
    Block.index b < Block.index b'.

(** Every step keeps the difficulty, and either keeps the chain or
    appends one block that names the old tip as its predecessor. *)
Definition step_shape (blockchain blockchain' : Blockchain.t) : Prop :=
  Blockchain.difficulty blockchain' = Blockchain.difficulty blockchain /\
  (Blockchain.chain blockchain' = Blockchain.chain blockchain \/
   exists last_block b,
     last (Blockchain.chain blockchain) = Some last_block /\
     Blockchain.chain blockchain' = Blockchain.chain blockchain ++ [b] /\
     Block.previous_hash b = Block.hash last_block).

(** The difficulty predicate on a block's stored hash. *)
Definition meets_difficulty (difficulty : Z) (block : Block.t) : bool :=
  startswith (Block.hash block) (zeros difficulty).

(** One iteration of the mining loop. *)
Definition try_next_nonce (block : Block.t) : Block.t :=
  let block := Block.set_nonce (Block.nonce block + 1) block in
  Block.set_hash (Blockchain.compute_hash block) block.

(** The block with nonce [n] and the hash that goes with it. *)
Definition with_nonce (block : Block.t) (n : Z) : Block.t :=
  let block := Block.set_nonce n block in
  Block.set_hash (Blockchain.compute_hash block) block.

(** ** Concrete ledgers

    Genesis at time [0.0], then three blocks mined at times for which
    the first nonce tried already meets difficulty 4. *)

Module Scenario.

Definition s0 : Blockchain.t := Blockchain.init 0.

Definition t1 := Transaction.mk "t1" "A" "B" 10 [] ["u1"] "".
Definition t2 := Transaction.mk "t2" "B" "C" 10 ["u1"] [] "".
Definition t3 := Transaction.mk "t3" "C" "D" 7 [] ["u1"] "".

Definition p1 : Blockchain.t := snd (new_transaction t1 s0).
Definition m1 : Blockchain.t := snd (mine_block 98394 1 p1).
Definition p2 : Blockchain.t := snd (new_transaction t2 m1).
Definition m2 : Blockchain.t := snd (mine_block 101087 1 p2).
Definition p3 : Blockchain.t := snd (new_transaction t3 m2).
Definition m3 : Blockchain.t := snd (mine_block 215933 1 p3).

Definition genesis : Block.t :=
  Block.mk 0 0 [] "0" 0 "f2e5a9550fb6716f239fdeba8f8b7aa1188d808286642e7828e5add618e73613".

Definition b1 : Block.t :=
  Block.mk 1 98394 [t1] (Block.hash genesis) 1
    "000049b277ca01cd08dc0fd42f9adf902a93625d1e0323be90d39e8b56c7b73d".

(** The block [m2] ends with, as another node would submit it. *)
Definition b2 : Block.t :=
  Block.mk 2 101087 [t2] (Block.hash b1) 1
    "0000bb2c5c77c13e7cce0ad5077ae7f288bd6f2cb54d34cc5a8234fa0f2363fd".

(** A block mined elsewhere on top of [genesis], again with index 0. *)
Definition external0 : Block.t :=
  Block.mk 0 39498 [] (Block.hash genesis) 0
    "0000d0de306832fd9c19c0aa5da086e03197821d0359c80d08653316dbee37e5".

(** A block that does not build on the tip. *)
Definition stray : Block.t :=
  Block.mk 1 39498 [] "00" 0 "0000".

(** A block on top of [genesis] whose stored hash is not its hash. *)
Definition forged : Block.t :=
  Block.mk 1 5 [] (Block.hash genesis) 0 "0000abcd".

(** A transfer with two outputs. *)
Definition t_two := Transaction.mk "t4" "A" "B" 10 [] ["u1"; "u2"] "".
Definition b_two : Block.t := Block.mk 1 5 [t_two] (Block.hash genesis) 0 "".

(** The ledger after [t_two] is submitted to [s0] and mined. *)
Definition p_two : Blockchain.t := snd (new_transaction t_two s0).
Definition m_two : Blockchain.t := snd (mine_block 30169 1 p_two).

(** Two transactions that differ in the signature only. *)
Definition t_sig_ab := Transaction.mk "t5" "A" "B" 10 [] ["u5"] "ab".
Definition t_sig_cd := Transaction.mk "t5" "A" "B" 10 [] ["u5"] "cd".

(** [m2] with [t_sig_ab] submitted and mined instead of [t3]. *)
Definition p5 : Blockchain.t := snd (new_transaction t_sig_ab m2).
Definition m5 : Blockchain.t := snd (mine_block 120699 1 p5).

(** The block [m5] ends with, as another node would submit it. *)
Definition b5 : Block.t :=
  Block.mk 3 120699 [t_sig_ab] (Block.hash b2) 1
    "000037f5f1572a00f89b3c5b2588780043f733016807844b1447df07d4309923".

(** A transaction whose signature is not hexadecimal; its sender is the
    generator of secp256k1, [x] then [y]. *)
Definition t_bad_sig :=
  Transaction.mk "t6"
    ("79be667ef9dcbbac55a06295ce870b07029bfcdb2dce28d959f2815b16f81798"
     +:+ "483ada7726a3c4655da4fbfc0e1108a8fd17b448a68554199c47d08ffb10d4b8")
    "B" 10 [] ["u6"] "zz".

(** A transaction whose sender is not hexadecimal. *)
Definition t_bad_key := Transaction.mk "t7" "zz" "B" 10 [] ["u7"] "00".

End Scenario.

(** ** The rest of the application

    The signing helper, the read-only endpoints and what is needed to
    speak about runs of calls. *)

(** [bytes.hex()] *)
Definition bytes_hex (bs : bytes) : string :=
  string_of_list_ascii
    (flat_map (fun b => list_ascii_of_string (SHA256.hex_of 2 (Z.of_N (Byte.to_N b)))) bs).

Section EcdsaSigning.
Variable SigningKey : Type.
Variable SigningKey_sign : SigningKey -> bytes -> outcome bytes.

(** [sign_data]: [private_key.sign(data.encode()).hex()] *)
Definition sign_data (private_key : SigningKey) (data : string) : outcome string :=
  match SigningKey_sign private_key (encode data) with
  | Return sig => Return (bytes_hex sig)
  | Raise e => Raise e
  | Diverge => Diverge
  end.
End EcdsaSigning.

Arguments sign_data {SigningKey} SigningKey_sign private_key data.

(** [/chain]: the length and the blocks. *)
Definition get_chain : M Blockchain.t (Z * list Block.t) :=
  let* blockchain := get in
  ret (Z.of_nat (length (Blockchain.chain blockchain)), Blockchain.chain blockchain).

(** [/utxo_pool] *)
Definition get_utxo_pool : M Blockchain.t (gmap string UTXO.t) :=
  let* blockchain := get in
  ret (Blockchain.utxo_pool blockchain).

(** The ledgers a ledger can turn into by further calls. *)
Inductive evolves (start : Blockchain.t) : Blockchain.t -> Prop :=
| evolves_refl :
    evolves start start
| evolves_new_transaction blockchain transaction :
    evolves start blockchain ->
    evolves start (snd (new_transaction transaction blockchain))
| evolves_mine_block blockchain now fuel :
    evolves start blockchain ->
    evolves start (snd (mine_block now fuel blockchain))
| evolves_add_block blockchain block :
    evolves start blockchain ->
    evolves start (snd (add_block block blockchain)).

(** Submitting several transactions one after the other. *)
Definition submit_all (transactions : list Transaction.t) (blockchain : Blockchain.t)
  : Blockchain.t :=
  fold_left (fun bc tx => snd (new_transaction tx bc)) transactions blockchain.

(** The entry [u] is the one [transaction] creates under its first
    output identifier, possibly marked spent since. *)
Definition created_by (transaction : Transaction.t) (utxo_id : string) (u : UTXO.t) : Prop :=
  head (Transaction.output_utxos transaction) = Some utxo_id /\
  UTXO.transaction_id u = Transaction.id transaction /\
  UTXO.amount u = Transaction.amount transaction.

(** Every input of the transaction is in the pool and unspent. *)
Definition all_spendable (pool : gmap string UTXO.t) (input_utxos : list string) : Prop :=
  forall utxo_id, In utxo_id input_utxos ->
    exists u, pool !! utxo_id = Some u /\ UTXO.is_spent u = false.

(** A stand-in for the [ecdsa] package, used to exercise the statements
    that are made for any such package: a key is 64 bytes, and a
    signature is the key followed by one byte, the length of the
    message modulo 256. *)
Module ToyEcdsa.

Definition VerifyingKey : Type := bytes.
Definition SigningKey : Type := bytes.

Definition from_string (bs : bytes) : outcome VerifyingKey :=
  if Nat.eqb (length bs) 64 then Return bs else Raise MalformedPointError.

Definition tag (data : bytes) : byte := byte_of_Z (Z.of_nat (length data) mod 256).

Definition sign (private_key : SigningKey) (data : bytes) : outcome bytes :=
  Return (private_key ++ [tag data]).

Definition verify (public_key : VerifyingKey) (sig data : bytes) : outcome bool :=
  if List.list_eq_dec byte_eq_dec sig (public_key ++ [tag data]) then Return true
  else Raise BadSignatureError.

Definition key_hex : string :=
  "79be667ef9dcbbac55a06295ce870b07029bfcdb2dce28d959f2815b16f81798"
  +:+ "483ada7726a3c4655da4fbfc0e1108a8fd17b448a68554199c47d08ffb10d4b8".

Definition key : bytes :=
  match bytes_fromhex key_hex with Return bs => bs | _ => [] end.

(** A transfer of [u1] with a signature that the stand-in rejects. *)
Definition t_spend : Transaction.t :=
  Transaction.mk "t8" key_hex "C" 10 ["u1"] ["u8"] "00".

(** The same transfer with the signature the stand-in accepts: the tag
    depends on the length of the signed string only. *)
Definition t_signed : Transaction.t :=
  Transaction.mk "t8" key_hex "C" 10 ["u1"] ["u8"]
    (bytes_hex
       (key ++ [tag (encode (signed_data
                               (Transaction.mk "t8" key_hex "C" 10 ["u1"] ["u8"]
                                  (bytes_hex (key ++ [tag []])))))])).

End ToyEcdsa.

(** The message the specification has the signature cover: the
    transaction's fields without the signature, encoded like the rest. *)
Definition public_dict (tx : Transaction.t) : json :=
  JDict [("id", JStr (Transaction.id tx));
         ("sender", JStr (Transaction.sender tx));
         ("receiver", JStr (Transaction.receiver tx));
         ("amount", JFloat (Transaction.amount tx));
         ("input_utxos", JList (List.map JStr (Transaction.input_utxos tx)));
         ("output_utxos", JList (List.map JStr (Transaction.output_utxos tx)))].

Definition unsigned_data (tx : Transaction.t) : string :=
  Json.dumps false (public_dict tx).

(** The encoded items of [public_dict], and the one of the signature. *)
Definition public_items (tx : Transaction.t) : list (string * string) :=
  [("id", Json.dumps false (JStr (Transaction.id tx)));
   ("sender", Json.dumps false (JStr (Transaction.sender tx)));
   ("receiver", Json.dumps false (JStr (Transaction.receiver tx)));
   ("amount", Json.dumps false (JFloat (Transaction.amount tx)));
   ("input_utxos", Json.dumps false (JList (List.map JStr (Transaction.input_utxos tx))));
   ("output_utxos", Json.dumps false (JList (List.map JStr (Transaction.output_utxos tx))))].

Definition signature_item (tx : Transaction.t) : string * string :=
  ("signature", Json.dumps false (JStr (Transaction.signature tx))).

(** Transactions signed over their public fields. *)
Module Signed.

(** Sender: the generator of secp256k1, the public key of the private
    key 1.  Signature: an ECDSA signature with that private key, SHA-1
    digest, [r] then [s], over [unsigned_data] of the transaction. *)
Definition t_real : Transaction.t :=
  Transaction.mk "t9" ToyEcdsa.key_hex "B" 10 [] ["u9"]
    ("9377c312145a5afb911bf9e8c067bcf6094c533603687850df502b61290bbf5e31"
     +:+ "db3bc107814bec96836f3957bdbf37c142d3d9af09e63b612a13a78dfe712b").

(** A second stand-in verifier: a signature is the key followed by the
    whole message, so that it is good for one message only. *)
Definition verify_whole (public_key : bytes) (sig data : bytes) : outcome bool :=
  if List.list_eq_dec byte_eq_dec sig (public_key ++ data) then Return true
  else Raise BadSignatureError.

Definition t_draft : Transaction.t :=
  Transaction.mk "t9" ToyEcdsa.key_hex "B" 10 [] ["u9"] "".

Definition sig_whole : bytes := ToyEcdsa.key ++ encode (unsigned_data t_draft).

(** [t_draft] signed over its public fields for [verify_whole]. *)
Definition t_whole : Transaction.t :=
  Transaction.mk "t9" ToyEcdsa.key_hex "B" 10 [] ["u9"] (bytes_hex sig_whole).

End Signed.


(** * Properties *)

(** ** What the endpoints do to the state *)

Lemma mine_block_endpoint now fuel blockchain :
  mine_block now fuel blockchain = Blockchain.mine_block now fuel blockchain.
Proof.
  unfold mine_block, try_except.
  destruct (Blockchain.mine_block now fuel blockchain) as [[b|e|] s']; try reflexivity.
  destruct e; reflexivity.
Qed.

Lemma mine_block_unfold now fuel self :
  Blockchain.mine_block now fuel self =
  match Blockchain.pending_transactions self with
  | [] => (Raise (HTTPException 400 "No transactions to mine."), self)
  | _ =>
      match last (Blockchain.chain self) with
      | None => (Raise IndexError, self)
      | Some last_block =>
          match Blockchain.mine_loop (Blockchain.difficulty self) fuel
                  (Blockchain.candidate self last_block now) with
          | Return b =>
              (Return b,
               Blockchain.mk (Blockchain.chain self ++ [b]) []
                 (Blockchain.apply_block b (Blockchain.utxo_pool self))
                 (Blockchain.difficulty self))
          | Raise e => (Raise e, self)
          | Diverge => (Diverge, self)
          end
      end
  end.
Proof.
  unfold Blockchain.mine_block, Blockchain.chain_last, bind, get, ret, raise, lift,
    modify, Blockchain.update_utxo_pool.
  destruct (Blockchain.pending_transactions self); [reflexivity|].
  destruct (last (Blockchain.chain self)); [|reflexivity].
  destruct (Blockchain.mine_loop _ _ _); reflexivity.
Qed.

Lemma add_block_unfold block blockchain :
  add_block block blockchain =
  match last (Blockchain.chain blockchain) with
  | None => (Raise IndexError, blockchain)
  | Some last_block =>
      if negb (String.eqb (Block.previous_hash block) (Block.hash last_block))
      then (Raise (HTTPException 400 "Invalid previous hash."), blockchain)
      else if negb (Blockchain.validate_block blockchain block)
      then (Raise (HTTPException 400 "Invalid block."), blockchain)
      else
        (Return block,
         Blockchain.mk (Blockchain.chain blockchain ++ [block])
           (Blockchain.pending_transactions blockchain)
           (Blockchain.apply_block block (Blockchain.utxo_pool blockchain))
           (Blockchain.difficulty blockchain))
  end.
Proof.
  unfold add_block, Blockchain.chain_last, bind, get, ret, raise, modify,
    Blockchain.update_utxo_pool.
  destruct (last (Blockchain.chain blockchain)); [|reflexivity].
  destruct (negb (String.eqb _ _)); [reflexivity|].
  destruct (negb (Blockchain.validate_block _ _)); reflexivity.
Qed.

Lemma new_transaction_unfold transaction blockchain :
  new_transaction transaction blockchain =
  (Return transaction,
   Blockchain.mk (Blockchain.chain blockchain)
     (Blockchain.pending_transactions blockchain ++ [transaction])
     (Blockchain.utxo_pool blockchain) (Blockchain.difficulty blockchain)).
Proof. reflexivity. Qed.

(** ** The hash and the mining loop *)

Lemma compute_hash_set_hash h block :
  Blockchain.compute_hash (Block.set_hash h block) = Blockchain.compute_hash block.
Proof. destruct block; reflexivity. Qed.

Lemma try_next_nonce_with_nonce block :
  try_next_nonce block = with_nonce block (Block.nonce block + 1).
Proof. reflexivity. Qed.

Lemma with_nonce_with_nonce block n m :
  with_nonce (with_nonce block n) m = with_nonce block m.
Proof. destruct block; reflexivity. Qed.

Lemma nonce_with_nonce block n : Block.nonce (with_nonce block n) = n.
Proof. reflexivity. Qed.

Lemma hash_with_nonce block n :
  Block.hash (with_nonce block n) = Blockchain.compute_hash (with_nonce block n).
Proof.
  unfold with_nonce. rewrite compute_hash_set_hash. reflexivity.
Qed.

Lemma transactions_with_nonce block n :
  Block.transactions (with_nonce block n) = Block.transactions block.
Proof. reflexivity. Qed.

Lemma index_with_nonce block n :
  Block.index (with_nonce block n) = Block.index block.
Proof. reflexivity. Qed.

Lemma previous_hash_with_nonce block n :
  Block.previous_hash (with_nonce block n) = Block.previous_hash block.
Proof. reflexivity. Qed.

(** After [k >= 1] iterations the loop holds the block with nonce
    [nonce + k] and the hash computed for it. *)
Lemma iter_try_next_nonce (k : nat) block :
  Nat.iter (S k) try_next_nonce block
  = with_nonce block (Block.nonce block + Z.of_nat (S k)).
Proof.
  induction k as [|k IH].
  - reflexivity.
  - change (Nat.iter (S (S k)) try_next_nonce block)
      with (try_next_nonce (Nat.iter (S k) try_next_nonce block)).
    rewrite IH, try_next_nonce_with_nonce, with_nonce_with_nonce, nonce_with_nonce.
    replace (Block.nonce block + Z.of_nat (S k) + 1)
      with (Block.nonce block + Z.of_nat (S (S k))) by lia.
    reflexivity.
Qed.

Lemma mine_loop_step difficulty fuel block :
  Blockchain.mine_loop difficulty (S fuel) block =
  if meets_difficulty difficulty block then Return block
  else Blockchain.mine_loop difficulty fuel (try_next_nonce block).
Proof. reflexivity. Qed.

Lemma mine_loop_zero difficulty block :
  Blockchain.mine_loop difficulty 0 block =
  if meets_difficulty difficulty block then Return block else Diverge.
Proof. reflexivity. Qed.

(** The loop never raises. *)
Lemma mine_loop_no_raise difficulty fuel block e :
  Blockchain.mine_loop difficulty fuel block <> Raise e.
Proof.
  revert block. induction fuel as [|fuel IH]; intros block.
  - rewrite mine_loop_zero. destruct (meets_difficulty _ _); discriminate.
  - rewrite mine_loop_step. destruct (meets_difficulty _ _); [discriminate|apply IH].
Qed.

(** What the loop returns is the first iterate that meets the
    difficulty. *)
Lemma mine_loop_return difficulty fuel block r :
  Blockchain.mine_loop difficulty fuel block = Return r ->
  exists k : nat,
    (k <= fuel)%nat /\
    r = Nat.iter k try_next_nonce block /\
    meets_difficulty difficulty r = true /\
    forall j : nat, (j < k)%nat ->
      meets_difficulty difficulty (Nat.iter j try_next_nonce block) = false.
Proof.
  revert block. induction fuel as [|fuel IH]; intros block.
  - rewrite mine_loop_zero.
    destruct (meets_difficulty difficulty block) eqn:Hm; [|discriminate].
    intros [= <-]. exists 0%nat. repeat split; [lia|assumption|intros; lia].
  - rewrite mine_loop_step.
    destruct (meets_difficulty difficulty block) eqn:Hm.
    + intros [= <-]. exists 0%nat. repeat split; [lia|assumption|intros; lia].
    + intros H. destruct (IH _ H) as (k & Hk & -> & Hr & Hlt).
      exists (S k). rewrite Nat.iter_succ_r. repeat split; [lia|assumption|].
      intros [|j] Hj; [exact Hm|]. rewrite Nat.iter_succ_r. apply Hlt. lia.
Qed.

(** Whenever some iterate meets the difficulty, enough fuel makes the
    loop return. *)
Lemma mine_loop_terminates difficulty (k : nat) :
  forall block fuel,
    (k <= fuel)%nat ->
    meets_difficulty difficulty (Nat.iter k try_next_nonce block) = true ->
    exists r, Blockchain.mine_loop difficulty fuel block = Return r.
Proof.
  induction k as [|k IH]; intros block fuel Hk Hm.
  - destruct fuel; [rewrite mine_loop_zero|rewrite mine_loop_step];
      simpl in Hm; rewrite Hm; eauto.
  - destruct fuel as [|fuel]; [lia|]. rewrite mine_loop_step.
    destruct (meets_difficulty difficulty block); [eauto|].
    apply IH; [lia|]. rewrite <- Nat.iter_succ_r. exact Hm.
Qed.

(** ** Lists of blocks *)

Lemma adjacent_snoc (R : Block.t -> Block.t -> Prop) (l : list Block.t) (x y : Block.t) :
  (forall (i : nat) b b', l !! i = Some b -> l !! S i = Some b' -> R b b') ->
  last l = Some x -> R x y ->
  forall (i : nat) b b', (l ++ [y]) !! i = Some b -> (l ++ [y]) !! S i = Some b' -> R b b'.
Proof.
  intros Hl Hlast Hxy i b b' Hi HSi.
  destruct (decide (S i < length l)%nat) as [Hlt|Hge].
  - rewrite lookup_app_l in Hi by lia. rewrite lookup_app_l in HSi by lia. eauto.
  - assert (S i = length l) as Hlen.
    { apply lookup_lt_Some in HSi. rewrite length_app in HSi. simpl in HSi. lia. }
    rewrite lookup_app_l in Hi by lia.
    rewrite lookup_app_r in HSi by lia.
    rewrite Hlen, Nat.sub_diag in HSi. injection HSi as <-.
    rewrite last_lookup in Hlast. rewrite <- Hlen in Hlast. simpl in Hlast.
    rewrite Hlast in Hi. injection Hi as <-. exact Hxy.
Qed.

Lemma linked_snoc l x y :
  linked l -> last l = Some x -> Block.previous_hash y = Block.hash x -> linked (l ++ [y]).
Proof.
  intros Hl Hlast Hxy.
  exact (adjacent_snoc (fun b b' => Block.previous_hash b' = Block.hash b) l x y Hl Hlast Hxy).
Qed.

Lemma indices_increasing_snoc l x y :
  indices_increasing l -> last l = Some x -> Block.index x < Block.index y ->
  indices_increasing (l ++ [y]).
Proof.
  intros Hl Hlast Hxy.
  exact (adjacent_snoc (fun b b' => Block.index b < Block.index b') l x y Hl Hlast Hxy).
Qed.

(** ** Invariants of the reachable ledgers *)

Lemma init_unfold now :
  Blockchain.init now =
  Blockchain.mk [with_nonce (Block.mk 0 now [] "0" 0 "") 0] [] ∅ 4.
Proof. reflexivity. Qed.

Lemma mine_loop_fields difficulty fuel block r :
  Blockchain.mine_loop difficulty fuel block = Return r ->
  Block.index r = Block.index block /\
  Block.timestamp r = Block.timestamp block /\
  Block.transactions r = Block.transactions block /\
  Block.previous_hash r = Block.previous_hash block.
Proof.
  intros H. apply mine_loop_return in H as ([|k] & _ & -> & _).
  - auto.
  - rewrite iter_try_next_nonce. auto.
Qed.

(** A successful [/mine_block] in terms of the state before it. *)
Lemma mine_block_return now fuel blockchain b blockchain' :
  mine_block now fuel blockchain = (Return b, blockchain') ->
  exists last_block,
    Blockchain.pending_transactions blockchain <> [] /\
    last (Blockchain.chain blockchain) = Some last_block /\
    Blockchain.mine_loop (Blockchain.difficulty blockchain) fuel
      (Blockchain.candidate blockchain last_block now) = Return b /\
    blockchain' =
      Blockchain.mk (Blockchain.chain blockchain ++ [b]) []
        (Blockchain.apply_block b (Blockchain.utxo_pool blockchain))
        (Blockchain.difficulty blockchain).
Proof.
  rewrite mine_block_endpoint, mine_block_unfold.
  destruct (Blockchain.pending_transactions blockchain) as [|t l]; [discriminate|].
  destruct (last (Blockchain.chain blockchain)) as [lb|]; [|discriminate].
  destruct (Blockchain.mine_loop _ _ _) as [r| |] eqn:Hloop; try discriminate.
  intros [= <- <-]. exists lb. repeat split; [discriminate|exact Hloop].
Qed.

(** An unsuccessful [/mine_block] leaves the ledger as it was. *)
Lemma mine_block_not_return now fuel blockchain :
  (forall b, fst (mine_block now fuel blockchain) <> Return b) ->
  snd (mine_block now fuel blockchain) = blockchain.
Proof.
  rewrite mine_block_endpoint, mine_block_unfold.
  destruct (Blockchain.pending_transactions blockchain) as [|t l]; [reflexivity|].
  destruct (last (Blockchain.chain blockchain)) as [lb|]; [|reflexivity].
  destruct (Blockchain.mine_loop _ _ _) as [r| |]; try reflexivity.
  intros H. destruct (H r). reflexivity.
Qed.

(** A successful [/add_block] in terms of the state before it. *)
Lemma add_block_return block blockchain b blockchain' :
  add_block block blockchain = (Return b, blockchain') ->
  exists last_block,
    b = block /\
    last (Blockchain.chain blockchain) = Some last_block /\
    Block.previous_hash block = Block.hash last_block /\
    Blockchain.validate_block blockchain block = true /\
    blockchain' =
      Blockchain.mk (Blockchain.chain blockchain ++ [block])
        (Blockchain.pending_transactions blockchain)
        (Blockchain.apply_block block (Blockchain.utxo_pool blockchain))
        (Blockchain.difficulty blockchain).
Proof.
  rewrite add_block_unfold.
  destruct (last (Blockchain.chain blockchain)) as [lb|]; [|discriminate].
  destruct (String.eqb _ _) eqn:Hprev; simpl; [|discriminate].
  destruct (Blockchain.validate_block _ _) eqn:Hvalid; simpl; [|discriminate].
  intros [= <- <-]. exists lb. apply String.eqb_eq in Hprev. auto.
Qed.

(** An unsuccessful [/add_block] leaves the ledger as it was. *)
Lemma add_block_not_return block blockchain :
  (forall b, fst (add_block block blockchain) <> Return b) ->
  snd (add_block block blockchain) = blockchain.
Proof.
  rewrite add_block_unfold.
  destruct (last (Blockchain.chain blockchain)) as [lb|]; [|reflexivity].
  destruct (negb (String.eqb _ _)); [reflexivity|].
  destruct (negb (Blockchain.validate_block _ _)); [reflexivity|].
  intros H. destruct (H block). reflexivity.
Qed.

Lemma new_transaction_shape transaction blockchain :
  step_shape blockchain (snd (new_transaction transaction blockchain)).
Proof. split; [reflexivity|left; reflexivity]. Qed.

Lemma mine_block_shape now fuel blockchain :
  step_shape blockchain (snd (mine_block now fuel blockchain)).
Proof.
  destruct (mine_block now fuel blockchain) as [[b|e|] blockchain'] eqn:H.
  - apply mine_block_return in H as (lb & _ & Hlast & Hloop & ->).
    split; [reflexivity|right]. exists lb, b. repeat split; [exact Hlast|].
    apply mine_loop_fields in Hloop as (_ & _ & _ & ->). reflexivity.
  - replace blockchain' with (snd (mine_block now fuel blockchain)) by (rewrite H; reflexivity).
    rewrite mine_block_not_return; [split; auto|]. rewrite H. discriminate.
  - replace blockchain' with (snd (mine_block now fuel blockchain)) by (rewrite H; reflexivity).
    rewrite mine_block_not_return; [split; auto|]. rewrite H. discriminate.
Qed.

Lemma add_block_shape block blockchain :
  step_shape blockchain (snd (add_block block blockchain)).
Proof.
  destruct (add_block block blockchain) as [[b|e|] blockchain'] eqn:H.
  - apply add_block_return in H as (lb & -> & Hlast & Hprev & _ & ->).
    split; [reflexivity|right]. exists lb, block. auto.
  - replace blockchain' with (snd (add_block block blockchain)) by (rewrite H; reflexivity).
    rewrite add_block_not_return; [split; auto|]. rewrite H. discriminate.
  - replace blockchain' with (snd (add_block block blockchain)) by (rewrite H; reflexivity).
    rewrite add_block_not_return; [split; auto|]. rewrite H. discriminate.
Qed.

Lemma reachable_shape (P : Blockchain.t -> Prop) :
  (forall now, P (Blockchain.init now)) ->
  (forall blockchain blockchain',
      reachable blockchain -> P blockchain -> step_shape blockchain blockchain' ->
      P blockchain') ->
  forall blockchain, reachable blockchain -> P blockchain.
Proof.
  intros Hinit Hstep blockchain H.
  induction H as [now|bc tx H IH|bc now fuel H IH|bc block H IH].
  - apply Hinit.
  - exact (Hstep _ _ H IH (new_transaction_shape tx bc)).
  - exact (Hstep _ _ H IH (mine_block_shape now fuel bc)).
  - exact (Hstep _ _ H IH (add_block_shape block bc)).
Qed.

Lemma reachable_difficulty blockchain :
  reachable blockchain -> Blockchain.difficulty blockchain = 4.
Proof.
  revert blockchain. apply reachable_shape.
  - reflexivity.
  - intros bc bc' _ IH [Hd _]. congruence.
Qed.

Lemma reachable_tip blockchain :
  reachable blockchain -> exists last_block, last (Blockchain.chain blockchain) = Some last_block.
Proof.
  revert blockchain. apply reachable_shape.
  - intros now. rewrite init_unfold. simpl. eauto.
  - intros bc bc' _ IH [_ [->|(lb & b & _ & -> & _)]]; [exact IH|].
    exists b. apply last_snoc.
Qed.

Lemma reachable_genesis blockchain :
  reachable blockchain ->
  exists g, Blockchain.chain blockchain !! 0%nat = Some g /\ Block.index g = 0.
Proof.
  revert blockchain. apply reachable_shape.
  - intros now. rewrite init_unfold. simpl. eauto.
  - intros bc bc' _ (g & Hg & Hi) [_ [->|(lb & b & _ & -> & _)]]; [eauto|].
    exists g. split; [|exact Hi]. apply lookup_app_l_Some. exact Hg.
Qed.

Lemma reachable_linked blockchain :
  reachable blockchain -> linked (Blockchain.chain blockchain).
Proof.
  revert blockchain. apply reachable_shape.
  - intros now. rewrite init_unfold. intros [|i] b b' Hi HSi; discriminate.
  - intros bc bc' _ IH [_ [->|(lb & b & Hlast & -> & Hprev)]]; [exact IH|].
    exact (linked_snoc _ _ _ IH Hlast Hprev).
Qed.

(** With four leading zeros required, the empty hash of a candidate
    never passes: the loop body runs at least once. *)
Lemma candidate_not_mined blockchain last_block now :
  meets_difficulty 4 (Blockchain.candidate blockchain last_block now) = false.
Proof. reflexivity. Qed.

(** With no zero required the loop body would not run at all and the
    candidate would come back as it is, nonce 0 and empty hash; the
    difficulty is 4 from construction on and nothing changes it. *)
Remark mine_loop_difficulty_zero fuel block :
  Blockchain.mine_loop 0 fuel block = Return block.
Proof.
  destruct fuel; [rewrite mine_loop_zero|rewrite mine_loop_step];
    unfold meets_difficulty, startswith; simpl;
    destruct (Block.hash block); reflexivity.
Qed.

(** What a reachable ledger mines: the candidate at some nonce [>= 1],
    the first one whose hash meets the difficulty. *)
Lemma mined_block_shape blockchain now fuel b blockchain' :
  reachable blockchain ->
  mine_block now fuel blockchain = (Return b, blockchain') ->
  exists last_block (k : nat),
    last (Blockchain.chain blockchain) = Some last_block /\
    b = with_nonce (Blockchain.candidate blockchain last_block now) (Z.of_nat (S k)) /\
    meets_difficulty 4 b = true /\
    forall j : nat, (j < k)%nat ->
      meets_difficulty 4
        (with_nonce (Blockchain.candidate blockchain last_block now) (Z.of_nat (S j))) = false.
Proof.
  intros Hreach H.
  apply mine_block_return in H as (lb & _ & Hlast & Hloop & _).
  rewrite (reachable_difficulty _ Hreach) in Hloop.
  apply mine_loop_return in Hloop as (k & _ & Hb & Hmeets & Hleast).
  destruct k as [|k].
  - simpl in Hb. subst b. rewrite candidate_not_mined in Hmeets. discriminate.
  - exists lb, k. rewrite iter_try_next_nonce in Hb. simpl Block.nonce in Hb.
    rewrite Z.add_0_l in Hb. repeat split; try assumption.
    intros j Hj. specialize (Hleast (S j) ltac:(lia)).
    rewrite iter_try_next_nonce in Hleast. simpl Block.nonce in Hleast.
    rewrite Z.add_0_l in Hleast. exact Hleast.
Qed.

(** ** The UTXO pool *)

(** Only the first output identifier is paired with an amount. *)
Lemma apply_transaction_outputs pool transaction :
  Blockchain.apply_transaction pool transaction =
  let pool' := fold_left Blockchain.spend (Transaction.input_utxos transaction) pool in
  match Transaction.output_utxos transaction with
  | [] => pool'
  | utxo_id :: _ =>
      <[utxo_id := UTXO.mk (Transaction.id transaction) (Transaction.amount transaction) false]>
        pool'
  end.
Proof.
  unfold Blockchain.apply_transaction.
  destruct (Transaction.output_utxos transaction) as [|o [|o' r]]; reflexivity.
Qed.

Lemma spend_keeps_spent pool x utxo_id :
  spent pool utxo_id = true -> spent (Blockchain.spend pool x) utxo_id = true.
Proof.
  unfold spent, Blockchain.spend. intros H.
  destruct (pool !! x) as [u|] eqn:Hx; [|exact H].
  destruct (decide (x = utxo_id)) as [->|Hne].
  - rewrite lookup_insert_eq. reflexivity.
  - rewrite lookup_insert_ne by exact Hne. exact H.
Qed.

Lemma spend_all_keeps_spent ids pool utxo_id :
  spent pool utxo_id = true ->
  spent (fold_left Blockchain.spend ids pool) utxo_id = true.
Proof.
  revert pool. induction ids as [|x ids IH]; intros pool H; simpl; [exact H|].
  apply IH, spend_keeps_spent, H.
Qed.

Lemma apply_transaction_keeps_spent pool transaction utxo_id :
  ~ In utxo_id (Transaction.output_utxos transaction) ->
  spent pool utxo_id = true ->
  spent (Blockchain.apply_transaction pool transaction) utxo_id = true.
Proof.
  intros Hout H. rewrite apply_transaction_outputs. simpl.
  pose proof (spend_all_keeps_spent (Transaction.input_utxos transaction) _ _ H) as H'.
  destruct (Transaction.output_utxos transaction) as [|o r]; [exact H'|].
  unfold spent. rewrite lookup_insert_ne; [exact H'|].
  intros ->. apply Hout. left. reflexivity.
Qed.

Lemma apply_transactions_keep_spent txs pool utxo_id :
  (forall tx, In tx txs -> ~ In utxo_id (Transaction.output_utxos tx)) ->
  spent pool utxo_id = true ->
  spent (fold_left Blockchain.apply_transaction txs pool) utxo_id = true.
Proof.
  revert pool. induction txs as [|tx txs IH]; intros pool Hout H; simpl; [exact H|].
  apply IH.
  - intros tx' Hin. apply Hout. right. exact Hin.
  - apply apply_transaction_keeps_spent; [apply Hout; left; reflexivity|exact H].
Qed.

Lemma apply_block_keeps_spent block pool utxo_id :
  (forall tx, In tx (Block.transactions block) -> ~ In utxo_id (Transaction.output_utxos tx)) ->
  spent pool utxo_id = true ->
  spent (Blockchain.apply_block block pool) utxo_id = true.
Proof. apply apply_transactions_keep_spent. Qed.

(** ** The concrete ledgers *)

Lemma scenario_mine1 :
  mine_block 98394 1 Scenario.p1 = (Return Scenario.b1, Scenario.m1).
Proof.
  rewrite (surjective_pairing (mine_block 98394 1 Scenario.p1)).
  replace (fst (mine_block 98394 1 Scenario.p1)) with (Return Scenario.b1)
    by (vm_compute; reflexivity).
  unfold Scenario.m1. reflexivity.
Qed.

Lemma scenario_m1_reachable : reachable Scenario.m1.
Proof.
  exact (reachable_mine_block _ 98394 1
           (reachable_new_transaction _ Scenario.t1 (reachable_init 0))).
Qed.

Lemma scenario_p1_reachable : reachable Scenario.p1.
Proof. exact (reachable_new_transaction _ Scenario.t1 (reachable_init 0)). Qed.

Lemma scenario_m1_chain : Blockchain.chain Scenario.m1 = [Scenario.genesis; Scenario.b1].
Proof. vm_compute. reflexivity. Qed.

(** ** The chain *)

(** C3. After any sequence of submissions, mining calls and external
    blocks, every block on the chain carries the hash of the block
    before it as its [previous_hash]. *)
Theorem chain_links_previous_hash blockchain (i : nat) b b' :
  reachable blockchain ->
  Blockchain.chain blockchain !! i = Some b ->
  Blockchain.chain blockchain !! S i = Some b' ->
  Block.previous_hash b' = Block.hash b.
Proof.
  intros Hreach. exact (reachable_linked blockchain Hreach i b b').
Qed.

Lemma chain_links_previous_hash_witness :
  Block.previous_hash Scenario.b1 = Block.hash Scenario.genesis.
Proof.
  apply (chain_links_previous_hash Scenario.m1 0 Scenario.genesis Scenario.b1).
  - exact (reachable_mine_block _ 98394 1
             (reachable_new_transaction _ Scenario.t1 (reachable_init 0))).
  - vm_compute. reflexivity.
  - vm_compute. reflexivity.
Defined.

(** C4. A block returned by mining stores the hash of its own other
    fields (the stored hash itself plays no part in the computation),
    and that hash starts with as many zeros as the difficulty asks for,
    which is 4 on every reachable ledger. *)
Theorem mined_block_hash_valid blockchain now fuel b blockchain' :
  reachable blockchain ->
  mine_block now fuel blockchain = (Return b, blockchain') ->
  Blockchain.compute_hash b = Block.hash b /\
  (forall h, Blockchain.compute_hash (Block.set_hash h b) = Blockchain.compute_hash b) /\
  Blockchain.difficulty blockchain = 4 /\
  startswith (Block.hash b) (zeros (Blockchain.difficulty blockchain)) = true.
Proof.
  intros Hreach H.
  destruct (mined_block_shape _ _ _ _ _ Hreach H) as (lb & k & _ & -> & Hmeets & _).
  rewrite (reachable_difficulty _ Hreach).
  split; [|split; [|split]].
  - symmetry. apply hash_with_nonce.
  - intros h. apply compute_hash_set_hash.
  - reflexivity.
  - exact Hmeets.
Qed.

Lemma mined_block_hash_valid_witness :
  Blockchain.compute_hash Scenario.b1 = Block.hash Scenario.b1 /\
  startswith (Block.hash Scenario.b1) (zeros (Blockchain.difficulty Scenario.p1)) = true.
Proof.
  destruct (mined_block_hash_valid Scenario.p1 98394 1 Scenario.b1 Scenario.m1)
    as (Hhash & _ & _ & Hzeros).
  - exact (reachable_new_transaction _ Scenario.t1 (reachable_init 0)).
  - exact scenario_mine1.
  - split; [exact Hhash|exact Hzeros].
Defined.

(** The course of [/mine_block] on a reachable ledger: it reports the
    empty queue exactly when nothing is pending.  When it returns a block, the block
    holds the pending transactions, it is the new last block of the
    chain, the queue is empty and the block has been applied to the UTXO
    pool; when it does not return a block the ledger is untouched.  With
    something pending it does return a block as soon as the fuel covers
    a nonce whose hash meets the difficulty. *)
Theorem mine_block_empty_or_appends blockchain now fuel :
  reachable blockchain ->
  (fst (mine_block now fuel blockchain) = Raise EmptyPendingQueue
   <-> Blockchain.pending_transactions blockchain = []) /\
  (forall b blockchain',
      mine_block now fuel blockchain = (Return b, blockchain') ->
      Block.transactions b = Blockchain.pending_transactions blockchain /\
      Blockchain.chain blockchain' = Blockchain.chain blockchain ++ [b] /\
      Blockchain.pending_transactions blockchain' = [] /\
      Blockchain.utxo_pool blockchain'
        = Blockchain.apply_block b (Blockchain.utxo_pool blockchain)) /\
  ((forall b, fst (mine_block now fuel blockchain) <> Return b) ->
   snd (mine_block now fuel blockchain) = blockchain) /\
  (Blockchain.pending_transactions blockchain <> [] ->
   forall last_block (k : nat),
     last (Blockchain.chain blockchain) = Some last_block ->
     meets_difficulty 4
       (with_nonce (Blockchain.candidate blockchain last_block now) (Z.of_nat (S k))) = true ->
     (S k <= fuel)%nat ->
     exists b blockchain', mine_block now fuel blockchain = (Return b, blockchain')).
Proof.
  intros Hreach. split; [split|split; [|split]].
  - rewrite mine_block_endpoint, mine_block_unfold.
    destruct (Blockchain.pending_transactions blockchain) as [|t l]; [reflexivity|].
    destruct (last (Blockchain.chain blockchain)) as [lb|] eqn:Hlast.
    + destruct (Blockchain.mine_loop _ _ _) as [r|e|] eqn:Hloop; try discriminate.
      destruct (mine_loop_no_raise _ _ _ _ Hloop).
    + destruct (reachable_tip _ Hreach) as (lb & Hlb). congruence.
  - intros Hempty. rewrite mine_block_endpoint, mine_block_unfold, Hempty. reflexivity.
  - intros b blockchain' H.
    apply mine_block_return in H as (lb & _ & _ & Hloop & ->).
    apply mine_loop_fields in Hloop as (_ & _ & Htxs & _).
    simpl. rewrite Htxs. auto.
  - apply mine_block_not_return.
  - intros Hpending lb k Hlast Hmeets Hfuel.
    destruct (mine_loop_terminates 4 (S k) (Blockchain.candidate blockchain lb now) fuel Hfuel)
      as (r & Hr).
    { rewrite iter_try_next_nonce. exact Hmeets. }
    rewrite mine_block_endpoint, mine_block_unfold.
    destruct (Blockchain.pending_transactions blockchain) as [|t l]; [congruence|].
    rewrite Hlast, (reachable_difficulty _ Hreach), Hr. eauto.
Qed.

Lemma mine_block_empty_or_appends_witness :
  fst (mine_block 98394 1 Scenario.s0) = Raise EmptyPendingQueue /\
  Blockchain.chain Scenario.m1 = Blockchain.chain Scenario.p1 ++ [Scenario.b1] /\
  Blockchain.pending_transactions Scenario.m1 = [] /\
  exists b blockchain', mine_block 98394 1 Scenario.p1 = (Return b, blockchain').
Proof.
  destruct (mine_block_empty_or_appends Scenario.s0 98394 1 (reachable_init 0))
    as ((_ & Hempty) & _).
  destruct (mine_block_empty_or_appends Scenario.p1 98394 1
              (reachable_new_transaction _ Scenario.t1 (reachable_init 0)))
    as (_ & Hreturn & _ & Hfuel).
  destruct (Hreturn Scenario.b1 Scenario.m1 scenario_mine1) as (_ & Hchain & Hpending & _).
  split; [|split; [|split]].
  - apply Hempty. reflexivity.
  - exact Hchain.
  - exact Hpending.
  - apply (Hfuel ltac:(discriminate) Scenario.genesis 0%nat).
    + vm_compute. reflexivity.
    + vm_compute. reflexivity.
    + lia.
Defined.

(** C10. A block mined on a reachable ledger has a nonce of at least 1:
    it is the candidate at the least nonce from 1 upwards whose hash
    meets the difficulty, whatever the hash at nonce 0 is. *)
Theorem mined_nonce_at_least_one blockchain now fuel b blockchain' :
  reachable blockchain ->
  mine_block now fuel blockchain = (Return b, blockchain') ->
  1 <= Block.nonce b /\
  exists last_block,
    last (Blockchain.chain blockchain) = Some last_block /\
    b = with_nonce (Blockchain.candidate blockchain last_block now) (Block.nonce b) /\
    forall n, 1 <= n < Block.nonce b ->
      meets_difficulty 4 (with_nonce (Blockchain.candidate blockchain last_block now) n) = false.
Proof.
  intros Hreach H.
  destruct (mined_block_shape _ _ _ _ _ Hreach H) as (lb & k & Hlast & -> & _ & Hleast).
  rewrite nonce_with_nonce. split; [lia|].
  exists lb. repeat split; [exact Hlast|].
  intros n Hn. replace n with (Z.of_nat (S (Z.to_nat (n - 1)))) by lia.
  apply Hleast. lia.
Qed.

Lemma mined_nonce_at_least_one_witness : 1 <= Block.nonce Scenario.b1.
Proof.
  apply (mined_nonce_at_least_one Scenario.p1 98394 1 Scenario.b1 Scenario.m1).
  - exact (reachable_new_transaction _ Scenario.t1 (reachable_init 0)).
  - exact scenario_mine1.
Defined.

(** C9, as stated, fails: [/add_block] does not look at the index of
    the block it appends, so a block mined elsewhere with index 0 sits
    on top of the genesis block. *)
Lemma external_block_repeats_index :
  ~ (forall blockchain, reachable blockchain ->
       indices_increasing (Blockchain.chain blockchain)).
Proof.
  intros H.
  specialize (H (snd (add_block Scenario.external0 Scenario.s0))
                (reachable_add_block _ Scenario.external0 (reachable_init 0))).
  specialize (H 0%nat Scenario.genesis Scenario.external0).
  assert (Block.index Scenario.genesis < Block.index Scenario.external0) as Hlt.
  { apply H; vm_compute; reflexivity. }
  simpl in Hlt. lia.
Qed.

Lemma mined_only_reachable blockchain : mined_only blockchain -> reachable blockchain.
Proof.
  induction 1; [apply reachable_init|apply reachable_new_transaction|apply reachable_mine_block];
    assumption.
Qed.

Lemma mine_block_index blockchain now fuel b blockchain' :
  reachable blockchain ->
  mine_block now fuel blockchain = (Return b, blockchain') ->
  exists last_block,
    last (Blockchain.chain blockchain) = Some last_block /\
    Block.index b = Block.index last_block + 1 /\
    (indices_increasing (Blockchain.chain blockchain) ->
     indices_increasing (Blockchain.chain blockchain')).
Proof.
  intros Hreach H.
  destruct (mined_block_shape _ _ _ _ _ Hreach H) as (lb & k & Hlast & Hb & _).
  apply mine_block_return in H as (lb' & _ & _ & _ & ->).
  exists lb. split; [exact Hlast|]. split.
  - rewrite Hb. reflexivity.
  - intros Hinc. simpl. apply (indices_increasing_snoc _ lb); [exact Hinc|exact Hlast|].
    rewrite Hb. simpl. lia.
Qed.

Lemma mined_only_increasing blockchain :
  mined_only blockchain -> indices_increasing (Blockchain.chain blockchain).
Proof.
  induction 1 as [now|bc tx H IH|bc now fuel H IH].
  - rewrite init_unfold. intros [|i] b b' Hi HSi; discriminate.
  - exact IH.
  - destruct (mine_block now fuel bc) as [[b|e|] bc'] eqn:Hmine.
    + destruct (mine_block_index _ _ _ _ _ (mined_only_reachable _ H) Hmine)
        as (lb & _ & _ & Hinc).
      simpl. apply Hinc, IH.
    + replace bc' with (snd (mine_block now fuel bc)) by (rewrite Hmine; reflexivity).
      rewrite mine_block_not_return; [exact IH|]. rewrite Hmine. discriminate.
    + replace bc' with (snd (mine_block now fuel bc)) by (rewrite Hmine; reflexivity).
      rewrite mine_block_not_return; [exact IH|]. rewrite Hmine. discriminate.
Qed.

(** C9, amended.  The genesis block has index 0 and stays first; a
    block returned by mining has the index of the last block plus one,
    so mining keeps a chain with increasing indices increasing; and on
    a ledger grown by submissions and mining alone every block's index
    is greater than its predecessor's. *)
Theorem mined_blocks_extend_indices blockchain :
  reachable blockchain ->
  (exists g, Blockchain.chain blockchain !! 0%nat = Some g /\ Block.index g = 0) /\
  (forall now fuel b blockchain',
      mine_block now fuel blockchain = (Return b, blockchain') ->
      exists last_block,
        last (Blockchain.chain blockchain) = Some last_block /\
        Block.index b = Block.index last_block + 1 /\
        (indices_increasing (Blockchain.chain blockchain) ->
         indices_increasing (Blockchain.chain blockchain'))) /\
  (mined_only blockchain -> indices_increasing (Blockchain.chain blockchain)).
Proof.
  intros Hreach. split; [|split].
  - apply reachable_genesis, Hreach.
  - intros now fuel b blockchain'. apply mine_block_index, Hreach.
  - apply mined_only_increasing.
Qed.

Lemma mined_blocks_extend_indices_witness :
  Block.index Scenario.b1 = Block.index Scenario.genesis + 1 /\
  indices_increasing (Blockchain.chain Scenario.m1).
Proof.
  destruct (mined_blocks_extend_indices Scenario.p1
              (reachable_new_transaction _ Scenario.t1 (reachable_init 0)))
    as (_ & Hmine & _).
  destruct (Hmine 98394%float 1%nat Scenario.b1 Scenario.m1 scenario_mine1)
    as (lb & Hlast & Hindex & _).
  destruct (mined_blocks_extend_indices Scenario.m1
              (reachable_mine_block _ 98394 1
                 (reachable_new_transaction _ Scenario.t1 (reachable_init 0))))
    as (_ & _ & Hinc).
  split.
  - assert (lb = Scenario.genesis) as <-.
    { vm_compute in Hlast. injection Hlast as <-. reflexivity. }
    exact Hindex.
  - apply Hinc.
    exact (mined_only_mine_block _ 98394 1
             (mined_only_new_transaction _ Scenario.t1 (mined_only_init 0))).
Defined.

(** ** External blocks *)

(** C6. A block whose [previous_hash] is not the hash of the last block
    is refused as a previous-hash mismatch, and whenever [/add_block]
    raises, the ledger (chain, queue and UTXO pool) is exactly what it
    was before the call. *)
Theorem add_block_rejects_without_change block blockchain :
  (forall last_block,
      last (Blockchain.chain blockchain) = Some last_block ->
      Block.previous_hash block <> Block.hash last_block ->
      add_block block blockchain = (Raise PreviousHashMismatch, blockchain)) /\
  (forall e blockchain',
      add_block block blockchain = (Raise e, blockchain') ->
      blockchain' = blockchain /\
      length (Blockchain.chain blockchain') = length (Blockchain.chain blockchain) /\
      Blockchain.utxo_pool blockchain' = Blockchain.utxo_pool blockchain /\
      (e = PreviousHashMismatch \/ e = InvalidBlockHash \/ e = IndexError)).
Proof.
  split.
  - intros lb Hlast Hne. rewrite add_block_unfold, Hlast.
    apply String.eqb_neq in Hne. rewrite Hne. reflexivity.
  - intros e blockchain'. rewrite add_block_unfold.
    destruct (last (Blockchain.chain blockchain)) as [lb|].
    + destruct (negb (String.eqb _ _)).
      * intros [= <- <-]. unfold PreviousHashMismatch. auto 7.
      * destruct (negb (Blockchain.validate_block _ _)); [|discriminate].
        intros [= <- <-]. unfold InvalidBlockHash. auto 7.
    + intros [= <- <-]. auto 7.
Qed.

Lemma scenario_forged :
  add_block Scenario.forged Scenario.s0
  = (Raise InvalidBlockHash, snd (add_block Scenario.forged Scenario.s0)).
Proof.
  rewrite (surjective_pairing (add_block Scenario.forged Scenario.s0)) at 1.
  replace (fst (add_block Scenario.forged Scenario.s0)) with (@Raise Block.t InvalidBlockHash)
    by (vm_compute; reflexivity).
  reflexivity.
Qed.

Lemma add_block_rejects_without_change_witness :
  add_block Scenario.stray Scenario.s0 = (Raise PreviousHashMismatch, Scenario.s0) /\
  snd (add_block Scenario.forged Scenario.s0) = Scenario.s0.
Proof.
  split.
  - apply (proj1 (add_block_rejects_without_change Scenario.stray Scenario.s0)
             Scenario.genesis).
    + vm_compute. reflexivity.
    + vm_compute. discriminate.
  - apply (proj2 (add_block_rejects_without_change Scenario.forged Scenario.s0)
             InvalidBlockHash).
    exact scenario_forged.
Defined.

(** ** Spent flags *)

(** C2, as stated, fails: with [u1] spent, mining a transaction that
    lists [u1] among its outputs puts a fresh, unspent entry under the
    same identifier. *)
Lemma spent_output_recreated :
  ~ (forall blockchain now fuel utxo_id,
       reachable blockchain ->
       spent (Blockchain.utxo_pool blockchain) utxo_id = true ->
       spent (Blockchain.utxo_pool (snd (mine_block now fuel blockchain))) utxo_id = true).
Proof.
  intros H.
  specialize (H Scenario.p3 215933%float 1%nat "u1").
  assert (spent (Blockchain.utxo_pool Scenario.m3) "u1" = true) as Hspent.
  { apply H.
    - exact (reachable_new_transaction _ Scenario.t3
               (reachable_mine_block _ 101087 1
                  (reachable_new_transaction _ Scenario.t2 scenario_m1_reachable))).
    - vm_compute. reflexivity. }
  vm_compute in Hspent. discriminate.
Qed.

(** C2, amended.  An identifier whose spent flag is set keeps it set
    through a submission, through the application of any block none of
    whose transactions lists the identifier among its outputs, through
    [/add_block] of such a block, and through [/mine_block] when no
    pending transaction lists it among its outputs. *)
Theorem spent_stays_spent_unless_recreated blockchain utxo_id :
  spent (Blockchain.utxo_pool blockchain) utxo_id = true ->
  (forall transaction,
      spent (Blockchain.utxo_pool (snd (new_transaction transaction blockchain))) utxo_id
      = true) /\
  (forall block,
      (forall tx, In tx (Block.transactions block) ->
                  ~ In utxo_id (Transaction.output_utxos tx)) ->
      spent (Blockchain.utxo_pool (snd (Blockchain.update_utxo_pool block blockchain))) utxo_id
      = true /\
      spent (Blockchain.utxo_pool (snd (add_block block blockchain))) utxo_id = true) /\
  (forall now fuel,
      (forall tx, In tx (Blockchain.pending_transactions blockchain) ->
                  ~ In utxo_id (Transaction.output_utxos tx)) ->
      spent (Blockchain.utxo_pool (snd (mine_block now fuel blockchain))) utxo_id = true).
Proof.
  intros Hspent. split; [|split].
  - intros transaction. exact Hspent.
  - intros block Hout. split.
    + apply apply_block_keeps_spent; assumption.
    + destruct (add_block block blockchain) as [[b|e|] blockchain'] eqn:Hadd.
      * apply add_block_return in Hadd as (lb & _ & _ & _ & _ & ->).
        apply apply_block_keeps_spent; assumption.
      * replace blockchain' with (snd (add_block block blockchain)) by (rewrite Hadd; reflexivity).
        rewrite add_block_not_return; [exact Hspent|]. rewrite Hadd. discriminate.
      * replace blockchain' with (snd (add_block block blockchain)) by (rewrite Hadd; reflexivity).
        rewrite add_block_not_return; [exact Hspent|]. rewrite Hadd. discriminate.
  - intros now fuel Hout.
    destruct (mine_block now fuel blockchain) as [[b|e|] blockchain'] eqn:Hmine.
    + apply mine_block_return in Hmine as (lb & _ & _ & Hloop & ->).
      apply mine_loop_fields in Hloop as (_ & _ & Htxs & _).
      apply apply_block_keeps_spent; [|exact Hspent].
      rewrite Htxs. exact Hout.
    + replace blockchain' with (snd (mine_block now fuel blockchain))
        by (rewrite Hmine; reflexivity).
      rewrite mine_block_not_return; [exact Hspent|]. rewrite Hmine. discriminate.
    + replace blockchain' with (snd (mine_block now fuel blockchain))
        by (rewrite Hmine; reflexivity).
      rewrite mine_block_not_return; [exact Hspent|]. rewrite Hmine. discriminate.
Qed.

Lemma spent_stays_spent_unless_recreated_witness :
  spent (Blockchain.utxo_pool Scenario.p5) "u1" = true /\
  spent (Blockchain.utxo_pool Scenario.m5) "u1" = true /\
  fst (add_block Scenario.b5 Scenario.p5) = Return Scenario.b5 /\
  spent (Blockchain.utxo_pool (snd (add_block Scenario.b5 Scenario.p5))) "u1" = true.
Proof.
  assert (spent (Blockchain.utxo_pool Scenario.p5) "u1" = true) as Hspent
    by (vm_compute; reflexivity).
  destruct (spent_stays_spent_unless_recreated Scenario.p5 "u1" Hspent)
    as (_ & Hblock & Hmine).
  split; [exact Hspent|split; [|split]].
  - unfold Scenario.m5. apply Hmine.
    replace (Blockchain.pending_transactions Scenario.p5) with [Scenario.t_sig_ab]
      by (vm_compute; reflexivity).
    intros tx [<-|[]]. simpl. intros [H|[]]. discriminate H.
  - vm_compute. reflexivity.
  - apply Hblock. intros tx [<-|[]]. simpl. intros [H|[]]. discriminate H.
Defined.

(** C1 fails on a transaction with two outputs.  Submitted to a fresh
    ledger and mined, [t_two] ends up in the new block, yet the pool
    only gets an entry for its first output: [zip] stops at the end of
    the one-element list of amounts. *)
Theorem second_output_never_created :
  (exists b, mine_block 30169 1 Scenario.p_two = (Return b, Scenario.m_two) /\
             Block.transactions b = [Scenario.t_two]) /\
  Blockchain.utxo_pool Scenario.m_two !! "u1" = Some (UTXO.mk "t4" 10 false) /\
  Blockchain.utxo_pool Scenario.m_two !! "u2" = None.
Proof.
  split; [|split].
  - destruct (mine_block 30169 1 Scenario.p_two) as [o blockchain'] eqn:Hmine.
    assert (o = fst (mine_block 30169 1 Scenario.p_two)) as Ho by (rewrite Hmine; reflexivity).
    assert (blockchain' = Scenario.m_two) as ->
      by (unfold Scenario.m_two; rewrite Hmine; reflexivity).
    vm_compute in Ho. subst o. eexists. split; reflexivity.
  - vm_compute. reflexivity.
  - vm_compute. reflexivity.
Qed.

(** The inputs of every transaction are marked spent when present and
    left alone when absent, before any output is created. *)
Lemma spend_marks_present pool utxo_id u :
  pool !! utxo_id = Some u ->
  Blockchain.spend pool utxo_id !! utxo_id = Some (UTXO.set_is_spent true u).
Proof. intros H. unfold Blockchain.spend. rewrite H. apply lookup_insert_eq. Qed.

Lemma spend_absent pool utxo_id :
  pool !! utxo_id = None -> Blockchain.spend pool utxo_id = pool.
Proof. intros H. unfold Blockchain.spend. rewrite H. reflexivity. Qed.

(** ** Signature verification *)

Lemma string_app_assoc (a b c : string) : (a +:+ b) +:+ c = a +:+ (b +:+ c).
Proof.
  induction a as [|x a IH]; [reflexivity|].
  change (String x ((a +:+ b) +:+ c) = String x (a +:+ (b +:+ c))).
  rewrite IH. reflexivity.
Qed.

Lemma string_prefix_step (a rest tail : string) :
  (exists p, rest = p +:+ tail) -> exists p, a +:+ rest = p +:+ tail.
Proof. intros [p ->]. exists (a +:+ p). symmetry. apply string_app_assoc. Qed.

(** The string handed to the verifier is the whole [transaction.dict()],
    and its last item is the signature itself. *)
Lemma signed_data_ends_with_signature transaction :
  exists public_part,
    signed_data transaction =
    public_part
      +:+ Json.item ("signature", Json.encode_basestring_ascii (Transaction.signature transaction))
      +:+ "}".
Proof.
  unfold signed_data, Transaction.dict.
  cbn [Json.dumps List.map String.concat].
  rewrite !string_app_assoc.
  repeat first [ by (exists ""; reflexivity) | apply string_prefix_step ].
Qed.

(** Two transactions with the same public fields and different
    signatures give the verifier different strings. *)
Theorem signed_data_depends_on_signature :
  Scenario.t_sig_cd =
    Transaction.mk (Transaction.id Scenario.t_sig_ab) (Transaction.sender Scenario.t_sig_ab)
      (Transaction.receiver Scenario.t_sig_ab) (Transaction.amount Scenario.t_sig_ab)
      (Transaction.input_utxos Scenario.t_sig_ab) (Transaction.output_utxos Scenario.t_sig_ab)
      "cd" /\
  signed_data Scenario.t_sig_ab <> signed_data Scenario.t_sig_cd.
Proof.
  split; [reflexivity|].
  intros H. apply (f_equal (fun x => String.eqb x (signed_data Scenario.t_sig_cd))) in H.
  vm_compute in H. discriminate H.
Qed.

Section EcdsaProperties.
Variable VerifyingKey : Type.
Variable VerifyingKey_from_string : bytes -> outcome VerifyingKey.
Variable VerifyingKey_verify : VerifyingKey -> bytes -> bytes -> outcome bool.

(** [/verify_transaction] only reads the ledger. *)
Lemma check_inputs_pure input_utxos blockchain :
  snd (check_inputs input_utxos blockchain) = blockchain.
Proof.
  induction input_utxos as [|utxo_id rest IH]; simpl; [reflexivity|].
  unfold bind, get.
  destruct (Blockchain.utxo_pool blockchain !! utxo_id) as [u|]; [|reflexivity].
  destruct (UTXO.is_spent u); [reflexivity|exact IH].
Qed.

Lemma verify_transaction_pure transaction blockchain :
  snd (verify_transaction VerifyingKey_from_string VerifyingKey_verify transaction blockchain)
  = blockchain.
Proof.
  unfold verify_transaction, bind, lift.
  pose proof (check_inputs_pure (Transaction.input_utxos transaction) blockchain) as Hpure.
  destruct (check_inputs _ blockchain) as [[[]|e|] s']; simpl in Hpure; subst s';
    try reflexivity.
  destruct (bytes_fromhex (Transaction.sender transaction)); try reflexivity.
  destruct (VerifyingKey_from_string a); try reflexivity.
  destruct (verify_signature _ _ _ _) as [[]| |]; reflexivity.
Qed.

(** A signature that [bytes.fromhex] refuses makes [verify_signature]
    raise [ValueError]: the handler only catches [BadSignatureError]. *)
Lemma verify_signature_fromhex_error public_key data signature :
  bytes_fromhex signature = Raise ValueError ->
  verify_signature VerifyingKey_verify public_key data signature = Raise ValueError.
Proof. intros H. unfold verify_signature. rewrite H. reflexivity. Qed.

(** Whereas what the verifier itself rejects comes back as [False]. *)
Lemma verify_signature_bad_signature public_key data signature sig :
  bytes_fromhex signature = Return sig ->
  VerifyingKey_verify public_key sig (encode data) = Raise BadSignatureError ->
  verify_signature VerifyingKey_verify public_key data signature = Return false.
Proof. intros H H'. unfold verify_signature. rewrite H, H'. reflexivity. Qed.

(** With every input spendable and a sender that decodes to a key, a
    signature that is not hexadecimal surfaces as [ValueError]. *)
Lemma verify_transaction_fromhex_error transaction blockchain key_bytes public_key :
  fst (check_inputs (Transaction.input_utxos transaction) blockchain) = Return tt ->
  bytes_fromhex (Transaction.sender transaction) = Return key_bytes ->
  VerifyingKey_from_string key_bytes = Return public_key ->
  bytes_fromhex (Transaction.signature transaction) = Raise ValueError ->
  verify_transaction VerifyingKey_from_string VerifyingKey_verify transaction blockchain
  = (Raise ValueError, blockchain).
Proof.
  intros Hinputs Hsender Hkey Hsig.
  pose proof (check_inputs_pure (Transaction.input_utxos transaction) blockchain) as Hpure.
  unfold verify_transaction, bind, lift.
  destruct (check_inputs _ blockchain) as [o s']. simpl in Hinputs, Hpure. subst o s'.
  rewrite Hsender, Hkey, (verify_signature_fromhex_error _ _ _ Hsig). reflexivity.
Qed.

(** C8 fails on a signature that is not hexadecimal: for any key and
    any data [verify_signature] raises [ValueError] instead of
    returning [False], and so does [/verify_transaction] on a
    transaction without inputs whose sender is not hexadecimal. *)
Theorem verify_signature_raises_on_non_hex public_key data blockchain :
  verify_signature VerifyingKey_verify public_key data
    (Transaction.signature Scenario.t_bad_sig) = Raise ValueError /\
  verify_transaction VerifyingKey_from_string VerifyingKey_verify
    Scenario.t_bad_key blockchain = (Raise ValueError, blockchain).
Proof. split; reflexivity. Qed.
End EcdsaProperties.

(** * Further properties of the application *)

(** ** The format of a hash *)








Lemma list_ascii_of_string_app a b :
  list_ascii_of_string (a +:+ b) = list_ascii_of_string a ++ list_ascii_of_string b.
Proof.
  induction a as [|x a IH]; [reflexivity|].
  change (x :: list_ascii_of_string (a +:+ b)
          = x :: (list_ascii_of_string a ++ list_ascii_of_string b)).
  rewrite IH. reflexivity.
Qed.



(** ** The chain over runs of calls *)

Lemma mine_block_cases now fuel blockchain :
  snd (mine_block now fuel blockchain) = blockchain \/
  exists b, mine_block now fuel blockchain = (Return b, snd (mine_block now fuel blockchain)).
Proof.
  destruct (mine_block now fuel blockchain) as [[b|e|] blockchain'] eqn:H.
  - right. exists b. reflexivity.
  - left. replace blockchain' with (snd (mine_block now fuel blockchain))
      by (rewrite H; reflexivity).
    apply mine_block_not_return. rewrite H. discriminate.
  - left. replace blockchain' with (snd (mine_block now fuel blockchain))
      by (rewrite H; reflexivity).
    apply mine_block_not_return. rewrite H. discriminate.
Qed.

Lemma add_block_cases block blockchain :
  snd (add_block block blockchain) = blockchain \/
  add_block block blockchain = (Return block, snd (add_block block blockchain)).
Proof.
  destruct (add_block block blockchain) as [[b|e|] blockchain'] eqn:H.
  - right. pose proof H as H'. apply add_block_return in H' as (lb & -> & _). reflexivity.
  - left. replace blockchain' with (snd (add_block block blockchain))
      by (rewrite H; reflexivity).
    apply add_block_not_return. rewrite H. discriminate.
  - left. replace blockchain' with (snd (add_block block blockchain))
      by (rewrite H; reflexivity).
    apply add_block_not_return. rewrite H. discriminate.
Qed.

Lemma validate_block_true self block :
  Blockchain.validate_block self block = true <->
  Block.hash block = Blockchain.compute_hash block /\
  startswith (Block.hash block) (zeros (Blockchain.difficulty self)) = true.
Proof.
  unfold Blockchain.validate_block.
  destruct (String.eqb _ _) eqn:Heq; simpl.
  - apply String.eqb_eq in Heq.
    destruct (startswith _ _); simpl; intuition congruence.
  - apply String.eqb_neq in Heq. intuition congruence.
Qed.

Lemma evolves_shape start (P : Blockchain.t -> Prop) :
  P start ->
  (forall blockchain blockchain',
      P blockchain -> step_shape blockchain blockchain' -> P blockchain') ->
  forall blockchain, evolves start blockchain -> P blockchain.
Proof.
  intros Hstart Hstep blockchain H.
  induction H as [|bc tx H IH|bc now fuel H IH|bc block H IH].
  - exact Hstart.
  - exact (Hstep _ _ IH (new_transaction_shape tx bc)).
  - exact (Hstep _ _ IH (mine_block_shape now fuel bc)).
  - exact (Hstep _ _ IH (add_block_shape block bc)).
Qed.

Lemma reachable_evolves blockchain :
  reachable blockchain <-> exists now, evolves (Blockchain.init now) blockchain.
Proof.
  split.
  - induction 1 as [now|bc tx H [now IH]|bc now' fuel H [now IH]|bc block H [now IH]].
    + exists now. constructor.
    + exists now. constructor. exact IH.
    + exists now. constructor. exact IH.
    + exists now. constructor. exact IH.
  - intros [now H]. induction H; [apply reachable_init| | |]; constructor; assumption.
Qed.

Lemma evolves_chain_prefix start blockchain :
  evolves start blockchain ->
  Blockchain.chain start `prefix_of` Blockchain.chain blockchain /\
  Blockchain.difficulty blockchain = Blockchain.difficulty start.
Proof.
  revert blockchain. apply evolves_shape.
  - split; reflexivity.
  - intros bc bc' [Hprefix Hd] [Hd' Hchain]. split; [|congruence].
    destruct Hchain as [->|(lb & b & _ & -> & _)]; [exact Hprefix|].
    apply prefix_app_r, Hprefix.
Qed.

(** X2. Whatever calls are made, the blocks already on the chain stay
    where they are: the earlier chain is a prefix of the later one, and
    the difficulty stays what it was. *)
Theorem chain_append_only start blockchain :
  evolves start blockchain ->
  Blockchain.chain start `prefix_of` Blockchain.chain blockchain /\
  Blockchain.difficulty blockchain = Blockchain.difficulty start.
Proof.
  intros H. destruct (evolves_chain_prefix start blockchain H) as [Hprefix Hd].
  split; [exact Hprefix|exact Hd].
Qed.

Lemma chain_append_only_witness :
  Blockchain.chain Scenario.s0 `prefix_of` Blockchain.chain Scenario.m1 /\
  Blockchain.difficulty Scenario.m1 = Blockchain.difficulty Scenario.s0.
Proof.
  apply (chain_append_only Scenario.s0 Scenario.m1).
  exact (evolves_mine_block _ _ 98394 1
           (evolves_new_transaction _ _ Scenario.t1 (evolves_refl _))).
Defined.

(** X3. The first block of a reachable chain is always the genesis
    block as constructed: index 0, no transactions, previous hash ["0"],
    nonce 0, and the hash of those fields. *)
Theorem genesis_is_permanent blockchain :
  reachable blockchain ->
  exists g,
    Blockchain.chain blockchain !! 0%nat = Some g /\
    Block.index g = 0 /\ Block.transactions g = [] /\
    Block.previous_hash g = "0" /\ Block.nonce g = 0 /\
    Block.hash g = Blockchain.compute_hash g.
Proof.
  intros H. apply reachable_evolves in H as [now H].
  destruct (evolves_chain_prefix _ _ H) as [[k Hk] _].
  exists (with_nonce (Block.mk 0 now [] "0" 0 "") 0).
  split; [rewrite Hk; reflexivity|].
  split; [reflexivity|]. split; [reflexivity|]. split; [reflexivity|].
  split; [reflexivity|]. apply hash_with_nonce.
Qed.

Lemma genesis_is_permanent_witness :
  exists g,
    Blockchain.chain Scenario.m1 !! 0%nat = Some g /\
    Block.index g = 0 /\ Block.transactions g = [] /\
    Block.previous_hash g = "0" /\ Block.nonce g = 0 /\
    Block.hash g = Blockchain.compute_hash g.
Proof.
  apply (genesis_is_permanent Scenario.m1).
  exact (reachable_mine_block _ 98394 1
           (reachable_new_transaction _ Scenario.t1 (reachable_init 0))).
Defined.

(** X4. Every block of a reachable chain, mined here or accepted from
    outside, stores the hash of its own fields, and every block after
    the genesis block has a hash that starts with four zeros. *)
Theorem chain_blocks_valid blockchain (i : nat) b :
  reachable blockchain ->
  Blockchain.chain blockchain !! i = Some b ->
  Block.hash b = Blockchain.compute_hash b /\
  (i <> 0%nat -> startswith (Block.hash b) (zeros 4) = true).
Proof.
  intros H. revert i b.
  induction H as [now|bc tx H IH|bc now fuel H IH|bc block H IH]; intros i b Hi.
  - rewrite init_unfold in Hi. destruct i as [|i]; [|discriminate].
    injection Hi as <-. split; [apply hash_with_nonce|congruence].
  - apply IH. exact Hi.
  - destruct (mine_block_cases now fuel bc) as [Hsame|[r Hr]].
    + rewrite Hsame in Hi. apply IH. exact Hi.
    + destruct (mined_block_shape _ _ _ _ _ H Hr) as (lb & k & Hlast & Hb & Hmeets & _).
      apply mine_block_return in Hr as (lb' & _ & _ & _ & Hst).
      rewrite Hst in Hi. simpl in Hi.
      apply lookup_snoc_Some in Hi as [[_ Hi]|[_ <-]]; [apply IH; exact Hi|].
      split; [rewrite Hb; apply hash_with_nonce|intros _; exact Hmeets].
  - destruct (add_block_cases block bc) as [Hsame|Hr].
    + rewrite Hsame in Hi. apply IH. exact Hi.
    + apply add_block_return in Hr as (lb & _ & _ & _ & Hvalid & Hst).
      rewrite Hst in Hi. simpl in Hi.
      apply lookup_snoc_Some in Hi as [[_ Hi]|[_ <-]]; [apply IH; exact Hi|].
      apply validate_block_true in Hvalid as [Hhash Hzeros].
      rewrite (reachable_difficulty _ H) in Hzeros. split; [exact Hhash|intros _; exact Hzeros].
Qed.

Lemma chain_blocks_valid_witness :
  Block.hash Scenario.external0 = Blockchain.compute_hash Scenario.external0 /\
  (1%nat <> 0%nat -> startswith (Block.hash Scenario.external0) (zeros 4) = true).
Proof.
  apply (chain_blocks_valid (snd (add_block Scenario.external0 Scenario.s0)) 1).
  - exact (reachable_add_block _ Scenario.external0 (reachable_init 0)).
  - vm_compute. reflexivity.
Defined.

Lemma mined_only_positions blockchain (i : nat) b :
  mined_only blockchain ->
  Blockchain.chain blockchain !! i = Some b ->
  Block.index b = Z.of_nat i /\
  (i <> 0%nat -> Block.transactions b <> [] /\ 1 <= Block.nonce b).
Proof.
  intros H. revert i b.
  induction H as [now|bc tx H IH|bc now fuel H IH]; intros i b Hi.
  - rewrite init_unfold in Hi. destruct i as [|i]; [|discriminate].
    injection Hi as <-. split; [reflexivity|congruence].
  - apply IH. exact Hi.
  - destruct (mine_block_cases now fuel bc) as [Hsame|[r Hr]].
    + rewrite Hsame in Hi. apply IH. exact Hi.
    + destruct (mined_block_shape _ _ _ _ _ (mined_only_reachable _ H) Hr)
        as (lb & k & Hlast & Hb & _ & _).
      apply mine_block_return in Hr as (lb' & Hpending & _ & _ & Hst).
      rewrite Hst in Hi. simpl in Hi.
      apply lookup_snoc_Some in Hi as [[_ Hi]|[-> <-]]; [apply IH; exact Hi|].
      rewrite last_lookup in Hlast.
      assert (length (Blockchain.chain bc) <> 0%nat) as Hlen.
      { intros Hz. rewrite Hz in Hlast. simpl in Hlast.
        apply lookup_lt_Some in Hlast. lia. }
      destruct (IH _ _ Hlast) as [Hindex _].
      rewrite Hb. simpl. split; [lia|]. intros _. split; [exact Hpending|lia].
Qed.

(** X5. On a ledger grown by submissions and mining alone, the block at
    position [i] has index [i], and every block after the genesis block
    carries at least one transaction and a nonce of at least 1. *)
Theorem mined_chain_positions blockchain (i : nat) b :
  mined_only blockchain ->
  Blockchain.chain blockchain !! i = Some b ->
  Block.index b = Z.of_nat i /\
  (i <> 0%nat -> Block.transactions b <> [] /\ 1 <= Block.nonce b).
Proof.
  intros H Hi. destruct (mined_only_positions blockchain i b H Hi) as [Hindex Hrest].
  split; [exact Hindex|exact Hrest].
Qed.

Lemma mined_chain_positions_witness :
  Block.index Scenario.b1 = Z.of_nat 1 /\
  (1%nat <> 0%nat -> Block.transactions Scenario.b1 <> [] /\ 1 <= Block.nonce Scenario.b1).
Proof.
  apply (mined_chain_positions Scenario.m1 1).
  - exact (mined_only_mine_block _ 98394 1
             (mined_only_new_transaction _ Scenario.t1 (mined_only_init 0))).
  - vm_compute. reflexivity.
Defined.

(** ** Validation and external blocks *)

Lemma mined_block_validates blockchain now fuel b blockchain' :
  reachable blockchain ->
  mine_block now fuel blockchain = (Return b, blockchain') ->
  exists last_block,
    last (Blockchain.chain blockchain) = Some last_block /\
    Block.previous_hash b = Block.hash last_block /\
    Blockchain.validate_block blockchain b = true.
Proof.
  intros Hreach H.
  destruct (mined_block_shape _ _ _ _ _ Hreach H) as (lb & k & Hlast & Hb & Hmeets & _).
  exists lb. split; [exact Hlast|]. split; [rewrite Hb; reflexivity|].
  apply validate_block_true. rewrite (reachable_difficulty _ Hreach).
  split; [rewrite Hb; apply hash_with_nonce|exact Hmeets].
Qed.

(** X6. A block that validates stops validating as soon as its stored
    hash is replaced by any other string. *)
Theorem validate_block_fixes_hash self block h :
  Blockchain.validate_block self block = true ->
  h <> Block.hash block ->
  Blockchain.validate_block self (Block.set_hash h block) = false.
Proof.
  intros Hvalid Hne.
  apply validate_block_true in Hvalid as [Hhash _].
  destruct (Blockchain.validate_block self (Block.set_hash h block)) eqn:H; [|reflexivity].
  apply validate_block_true in H as [H _].
  rewrite compute_hash_set_hash, <- Hhash in H. destruct Hne. exact H.
Qed.

Lemma validate_block_fixes_hash_witness :
  Blockchain.validate_block Scenario.s0 (Block.set_hash "0000" Scenario.external0) = false.
Proof.
  apply validate_block_fixes_hash.
  - vm_compute. reflexivity.
  - vm_compute. discriminate.
Defined.

(** X7. A block mined on a reachable ledger is one [/add_block] accepts
    on that same ledger, with the same chain and the same UTXO pool as
    a result; only the pending queue differs, which [/add_block] leaves
    as it is. *)
Theorem mined_block_is_acceptable blockchain now fuel b blockchain' :
  reachable blockchain ->
  mine_block now fuel blockchain = (Return b, blockchain') ->
  exists blockchain'',
    add_block b blockchain = (Return b, blockchain'') /\
    Blockchain.chain blockchain'' = Blockchain.chain blockchain' /\
    Blockchain.utxo_pool blockchain'' = Blockchain.utxo_pool blockchain' /\
    Blockchain.pending_transactions blockchain''
      = Blockchain.pending_transactions blockchain.
Proof.
  intros Hreach H.
  destruct (mined_block_validates _ _ _ _ _ Hreach H) as (lb & Hlast & Hprev & Hvalid).
  apply mine_block_return in H as (lb' & _ & _ & _ & ->).
  rewrite add_block_unfold, Hlast, Hprev, String.eqb_refl, Hvalid. simpl.
  eexists. split; [reflexivity|]. simpl. auto.
Qed.

Lemma mined_block_is_acceptable_witness :
  exists blockchain'',
    add_block Scenario.b1 Scenario.p1 = (Return Scenario.b1, blockchain'') /\
    Blockchain.chain blockchain'' = Blockchain.chain Scenario.m1 /\
    Blockchain.utxo_pool blockchain'' = Blockchain.utxo_pool Scenario.m1 /\
    Blockchain.pending_transactions blockchain''
      = Blockchain.pending_transactions Scenario.p1.
Proof.
  apply (mined_block_is_acceptable Scenario.p1 98394 1 Scenario.b1 Scenario.m1).
  - exact (reachable_new_transaction _ Scenario.t1 (reachable_init 0)).
  - exact scenario_mine1.
Defined.

Lemma add_block_accepts block blockchain last_block :
  last (Blockchain.chain blockchain) = Some last_block ->
  (fst (add_block block blockchain) = Return block <->
   Block.previous_hash block = Block.hash last_block /\
   Blockchain.validate_block blockchain block = true) /\
  (fst (add_block block blockchain) = Raise PreviousHashMismatch <->
   Block.previous_hash block <> Block.hash last_block) /\
  (fst (add_block block blockchain) = Raise InvalidBlockHash <->
   Block.previous_hash block = Block.hash last_block /\
   Blockchain.validate_block blockchain block = false).
Proof.
  intros Hlast. rewrite add_block_unfold, Hlast.
  destruct (String.eqb _ _) eqn:Heq; simpl.
  - apply String.eqb_eq in Heq.
    destruct (Blockchain.validate_block blockchain block); simpl;
      unfold PreviousHashMismatch, InvalidBlockHash; intuition congruence.
  - apply String.eqb_neq in Heq.
    unfold PreviousHashMismatch, InvalidBlockHash; intuition congruence.
Qed.

(** X8. On a reachable ledger [/add_block] accepts a block exactly when
    its previous hash is the hash of the last block, its stored hash is
    the hash of its fields and that hash starts with four zeros.  An
    accepted block becomes the last block and is applied to the UTXO
    pool, and the pending queue is left as it is. *)
Theorem add_block_accepts_iff blockchain block :
  reachable blockchain ->
  exists last_block,
    last (Blockchain.chain blockchain) = Some last_block /\
    (fst (add_block block blockchain) = Return block <->
     Block.previous_hash block = Block.hash last_block /\
     Block.hash block = Blockchain.compute_hash block /\
     startswith (Block.hash block) (zeros 4) = true) /\
    (fst (add_block block blockchain) = Return block ->
     snd (add_block block blockchain) =
       Blockchain.mk (Blockchain.chain blockchain ++ [block])
         (Blockchain.pending_transactions blockchain)
         (Blockchain.apply_block block (Blockchain.utxo_pool blockchain))
         (Blockchain.difficulty blockchain)).
Proof.
  intros Hreach. destruct (reachable_tip _ Hreach) as (lb & Hlast).
  exists lb. split; [exact Hlast|].
  destruct (add_block_accepts block blockchain lb Hlast) as (Hiff & _ & _).
  split.
  - rewrite Hiff, validate_block_true, (reachable_difficulty _ Hreach). tauto.
  - intros Hok.
    destruct (add_block block blockchain) as [o blockchain'] eqn:Hadd. simpl in Hok. subst o.
    apply add_block_return in Hadd as (lb' & _ & _ & _ & _ & ->). reflexivity.
Qed.

Lemma add_block_accepts_iff_witness :
  exists last_block,
    last (Blockchain.chain Scenario.s0) = Some last_block /\
    (fst (add_block Scenario.external0 Scenario.s0) = Return Scenario.external0 <->
     Block.previous_hash Scenario.external0 = Block.hash last_block /\
     Block.hash Scenario.external0 = Blockchain.compute_hash Scenario.external0 /\
     startswith (Block.hash Scenario.external0) (zeros 4) = true) /\
    (fst (add_block Scenario.external0 Scenario.s0) = Return Scenario.external0 ->
     snd (add_block Scenario.external0 Scenario.s0) =
       Blockchain.mk (Blockchain.chain Scenario.s0 ++ [Scenario.external0])
         (Blockchain.pending_transactions Scenario.s0)
         (Blockchain.apply_block Scenario.external0 (Blockchain.utxo_pool Scenario.s0))
         (Blockchain.difficulty Scenario.s0)).
Proof.
  apply (add_block_accepts_iff Scenario.s0 Scenario.external0).
  exact (reachable_init 0).
Defined.



(** ** Submissions *)

Lemma submit_all_unfold transactions blockchain :
  submit_all transactions blockchain =
  Blockchain.mk (Blockchain.chain blockchain)
    (Blockchain.pending_transactions blockchain ++ transactions)
    (Blockchain.utxo_pool blockchain) (Blockchain.difficulty blockchain).
Proof.
  unfold submit_all. revert blockchain.
  induction transactions as [|tx txs IH]; intros blockchain; simpl.
  - rewrite app_nil_r. destruct blockchain; reflexivity.
  - rewrite IH. simpl. rewrite <- app_assoc. reflexivity.
Qed.

(** X10. Transactions are queued in the order they are submitted,
    whatever they contain, and nothing else of the ledger changes; the
    next block mined carries the queue in that order. *)
Theorem submissions_keep_order transactions blockchain :
  Blockchain.pending_transactions (submit_all transactions blockchain)
    = Blockchain.pending_transactions blockchain ++ transactions /\
  Blockchain.chain (submit_all transactions blockchain) = Blockchain.chain blockchain /\
  Blockchain.utxo_pool (submit_all transactions blockchain)
    = Blockchain.utxo_pool blockchain /\
  (forall now fuel b blockchain',
      mine_block now fuel (submit_all transactions blockchain) = (Return b, blockchain') ->
      Block.transactions b = Blockchain.pending_transactions blockchain ++ transactions).
Proof.
  rewrite submit_all_unfold. simpl. split; [reflexivity|]. split; [reflexivity|].
  split; [reflexivity|].
  intros now fuel b blockchain' H.
  apply mine_block_return in H as (lb & _ & _ & Hloop & _).
  apply mine_loop_fields in Hloop as (_ & _ & Htxs & _). exact Htxs.
Qed.

Lemma submissions_keep_order_witness :
  Block.transactions Scenario.b1
  = Blockchain.pending_transactions Scenario.s0 ++ [Scenario.t1].
Proof.
  apply (proj2 (proj2 (proj2 (submissions_keep_order [Scenario.t1] Scenario.s0)))
           98394%float 1%nat Scenario.b1 Scenario.m1).
  exact scenario_mine1.
Defined.

(** ** The UTXO pool, entry by entry *)

Lemma spend_lookup pool x utxo_id :
  Blockchain.spend pool x !! utxo_id =
  if decide (x = utxo_id) then UTXO.set_is_spent true <$> pool !! utxo_id
  else pool !! utxo_id.
Proof.
  unfold Blockchain.spend. destruct (decide (x = utxo_id)) as [->|Hne].
  - destruct (pool !! utxo_id) as [u|] eqn:H.
    + rewrite lookup_insert_eq. reflexivity.
    + rewrite H. reflexivity.
  - destruct (pool !! x); [|reflexivity]. apply lookup_insert_ne. exact Hne.
Qed.

Lemma spend_all_lookup_other ids pool utxo_id :
  ~ In utxo_id ids -> fold_left Blockchain.spend ids pool !! utxo_id = pool !! utxo_id.
Proof.
  revert pool. induction ids as [|x ids IH]; intros pool Hnot; simpl; [reflexivity|].
  rewrite IH by (intros H; apply Hnot; right; exact H).
  rewrite spend_lookup. destruct (decide (x = utxo_id)) as [->|]; [|reflexivity].
  destruct Hnot. left. reflexivity.
Qed.

Lemma set_is_spent_twice (o : option UTXO.t) :
  UTXO.set_is_spent true <$> (UTXO.set_is_spent true <$> o) = UTXO.set_is_spent true <$> o.
Proof. destruct o; reflexivity. Qed.

Lemma spend_all_lookup_input ids pool utxo_id :
  In utxo_id ids ->
  fold_left Blockchain.spend ids pool !! utxo_id = UTXO.set_is_spent true <$> pool !! utxo_id.
Proof.
  revert pool. induction ids as [|x ids IH]; intros pool Hin; [destruct Hin|]. simpl.
  destruct (in_dec String.string_dec utxo_id ids) as [Hrest|Hrest].
  - rewrite IH by exact Hrest. rewrite spend_lookup.
    destruct (decide (x = utxo_id)); [apply set_is_spent_twice|reflexivity].
  - rewrite spend_all_lookup_other by exact Hrest. rewrite spend_lookup.
    destruct (decide (x = utxo_id)) as [|Hne]; [reflexivity|].
    destruct Hin as [Heq|Hin]; [destruct (Hne Heq)|destruct (Hrest Hin)].
Qed.

Lemma apply_transaction_lookup_output pool transaction utxo_id :
  head (Transaction.output_utxos transaction) = Some utxo_id ->
  Blockchain.apply_transaction pool transaction !! utxo_id
  = Some (UTXO.mk (Transaction.id transaction) (Transaction.amount transaction) false).
Proof.
  intros H. rewrite apply_transaction_outputs. simpl.
  destruct (Transaction.output_utxos transaction) as [|o r]; [discriminate|].
  injection H as ->. apply lookup_insert_eq.
Qed.

Lemma apply_transaction_lookup_spend pool transaction utxo_id :
  head (Transaction.output_utxos transaction) <> Some utxo_id ->
  Blockchain.apply_transaction pool transaction !! utxo_id
  = fold_left Blockchain.spend (Transaction.input_utxos transaction) pool !! utxo_id.
Proof.
  intros H. rewrite apply_transaction_outputs. simpl.
  destruct (Transaction.output_utxos transaction) as [|o r]; [reflexivity|].
  apply lookup_insert_ne. intros ->. apply H. reflexivity.
Qed.

(** X11. What one transaction does to the entry of an identifier: if it
    is the transaction's first output, the entry is a fresh unspent one
    owned by the transaction, whatever was there and even if the
    identifier is also an input; otherwise, if it is an input, the entry
    is marked spent when there is one and stays absent when there is
    none; otherwise nothing changes. *)
Theorem apply_transaction_lookup pool transaction utxo_id :
  (head (Transaction.output_utxos transaction) = Some utxo_id ->
   Blockchain.apply_transaction pool transaction !! utxo_id
   = Some (UTXO.mk (Transaction.id transaction) (Transaction.amount transaction) false)) /\
  (head (Transaction.output_utxos transaction) <> Some utxo_id ->
   In utxo_id (Transaction.input_utxos transaction) ->
   Blockchain.apply_transaction pool transaction !! utxo_id
   = UTXO.set_is_spent true <$> pool !! utxo_id) /\
  (head (Transaction.output_utxos transaction) <> Some utxo_id ->
   ~ In utxo_id (Transaction.input_utxos transaction) ->
   Blockchain.apply_transaction pool transaction !! utxo_id = pool !! utxo_id).
Proof.
  split; [apply apply_transaction_lookup_output|]. split.
  - intros Hout Hin. rewrite apply_transaction_lookup_spend by exact Hout.
    apply spend_all_lookup_input, Hin.
  - intros Hout Hin. rewrite apply_transaction_lookup_spend by exact Hout.
    apply spend_all_lookup_other, Hin.
Qed.

Lemma apply_transaction_lookup_witness :
  Blockchain.apply_transaction (Blockchain.utxo_pool Scenario.m1) Scenario.t3 !! "u1"
  = Some (UTXO.mk "t3" 7 false) /\
  Blockchain.apply_transaction (Blockchain.utxo_pool Scenario.m1) Scenario.t2 !! "u1"
  = UTXO.set_is_spent true <$> Blockchain.utxo_pool Scenario.m1 !! "u1" /\
  Blockchain.apply_transaction (Blockchain.utxo_pool Scenario.m1) Scenario.t2 !! "u9"
  = Blockchain.utxo_pool Scenario.m1 !! "u9".
Proof.
  split; [|split].
  - apply (proj1 (apply_transaction_lookup _ Scenario.t3 "u1")). reflexivity.
  - apply (proj1 (proj2 (apply_transaction_lookup _ Scenario.t2 "u1"))).
    + discriminate.
    + left. reflexivity.
  - apply (proj2 (proj2 (apply_transaction_lookup _ Scenario.t2 "u9"))).
    + discriminate.
    + intros [H|[]]. discriminate H.
Defined.

Lemma apply_transactions_frame txs pool utxo_id :
  (forall tx, In tx txs ->
     ~ In utxo_id (Transaction.input_utxos tx) /\
     head (Transaction.output_utxos tx) <> Some utxo_id) ->
  fold_left Blockchain.apply_transaction txs pool !! utxo_id = pool !! utxo_id.
Proof.
  revert pool. induction txs as [|tx txs IH]; intros pool H; simpl; [reflexivity|].
  rewrite IH by (intros tx' Hin; apply H; right; exact Hin).
  destruct (H tx (or_introl eq_refl)) as [Hin Hout].
  rewrite apply_transaction_lookup_spend by exact Hout.
  apply spend_all_lookup_other, Hin.
Qed.

(** X12. Applying a block leaves alone every identifier that none of
    its transactions lists as an input or as its first output: the
    entry, or its absence, is what it was. *)
Theorem apply_block_frame block pool utxo_id :
  (forall tx, In tx (Block.transactions block) ->
     ~ In utxo_id (Transaction.input_utxos tx) /\
     head (Transaction.output_utxos tx) <> Some utxo_id) ->
  Blockchain.apply_block block pool !! utxo_id = pool !! utxo_id.
Proof. intros H. unfold Blockchain.apply_block. apply apply_transactions_frame, H. Qed.

Lemma apply_block_frame_witness :
  Blockchain.apply_block Scenario.b2 (Blockchain.utxo_pool Scenario.m_two) !! "u2"
  = Blockchain.utxo_pool Scenario.m_two !! "u2".
Proof.
  apply apply_block_frame.
  intros tx [<-|[]]. split.
  - intros [H|[]]. discriminate H.
  - discriminate.
Defined.

Lemma apply_transaction_keeps_key pool transaction utxo_id :
  is_Some (pool !! utxo_id) ->
  is_Some (Blockchain.apply_transaction pool transaction !! utxo_id).
Proof.
  intros H.
  destruct (decide (head (Transaction.output_utxos transaction) = Some utxo_id)) as [Hout|Hout].
  - rewrite apply_transaction_lookup_output by exact Hout. eauto.
  - rewrite apply_transaction_lookup_spend by exact Hout.
    destruct (in_dec String.string_dec utxo_id (Transaction.input_utxos transaction)).
    + rewrite spend_all_lookup_input by assumption. apply fmap_is_Some, H.
    + rewrite spend_all_lookup_other by assumption. exact H.
Qed.

Lemma apply_block_keeps_key block pool utxo_id :
  is_Some (pool !! utxo_id) ->
  is_Some (Blockchain.apply_block block pool !! utxo_id).
Proof.
  unfold Blockchain.apply_block. generalize (Block.transactions block). intros txs.
  revert pool. induction txs as [|tx txs IH]; intros pool H; simpl; [exact H|].
  apply IH, apply_transaction_keeps_key, H.
Qed.

(** X13. No call ever removes an identifier from the UTXO pool: an
    identifier that has an entry keeps having one. *)
Theorem utxo_keys_persist start blockchain utxo_id :
  evolves start blockchain ->
  is_Some (Blockchain.utxo_pool start !! utxo_id) ->
  is_Some (Blockchain.utxo_pool blockchain !! utxo_id).
Proof.
  intros H Hstart.
  induction H as [|bc tx H IH|bc now fuel H IH|bc block H IH].
  - exact Hstart.
  - exact IH.
  - destruct (mine_block_cases now fuel bc) as [->|[b Hb]]; [exact IH|].
    apply mine_block_return in Hb as (lb & _ & _ & _ & ->).
    apply apply_block_keeps_key, IH.
  - destruct (add_block_cases block bc) as [->|Hb]; [exact IH|].
    apply add_block_return in Hb as (lb & _ & _ & _ & _ & ->).
    apply apply_block_keeps_key, IH.
Qed.

Lemma utxo_keys_persist_witness :
  is_Some (Blockchain.utxo_pool Scenario.m3 !! "u1").
Proof.
  apply (utxo_keys_persist Scenario.m1 Scenario.m3 "u1").
  - exact (evolves_mine_block _ _ 215933 1
             (evolves_new_transaction _ _ Scenario.t3
                (evolves_mine_block _ _ 101087 1
                   (evolves_new_transaction _ _ Scenario.t2 (evolves_refl _))))).
  - vm_compute. eauto.
Defined.

(** X14. An identifier gets an entry only as the first output of a
    transaction: if it has none before a block is applied and one
    after, some transaction of the block lists it first among its
    outputs.  Inputs that are not in the pool create nothing. *)
Theorem new_entries_come_from_outputs block pool utxo_id :
  pool !! utxo_id = None ->
  is_Some (Blockchain.apply_block block pool !! utxo_id) ->
  exists tx, In tx (Block.transactions block) /\
             head (Transaction.output_utxos tx) = Some utxo_id.
Proof.
  unfold Blockchain.apply_block. generalize (Block.transactions block). intros txs.
  revert pool. induction txs as [|tx txs IH]; intros pool Hnone Hsome; simpl in Hsome.
  - rewrite Hnone in Hsome. destruct Hsome as [u Hu]. discriminate.
  - destruct (decide (head (Transaction.output_utxos tx) = Some utxo_id)) as [Hout|Hout].
    + exists tx. split; [left; reflexivity|exact Hout].
    + destruct (IH (Blockchain.apply_transaction pool tx)) as (tx' & Hin & Hout').
      * rewrite apply_transaction_lookup_spend by exact Hout.
        destruct (in_dec String.string_dec utxo_id (Transaction.input_utxos tx)).
        -- rewrite spend_all_lookup_input by assumption. rewrite Hnone. reflexivity.
        -- rewrite spend_all_lookup_other by assumption. exact Hnone.
      * exact Hsome.
      * exists tx'. split; [right; exact Hin|exact Hout'].
Qed.

Lemma new_entries_come_from_outputs_witness :
  exists tx, In tx (Block.transactions Scenario.b1) /\
             head (Transaction.output_utxos tx) = Some "u1".
Proof.
  apply (new_entries_come_from_outputs Scenario.b1 ∅ "u1").
  - reflexivity.
  - vm_compute. eauto.
Defined.

Lemma spend_spent_id pool utxo_id :
  pool !! utxo_id = None \/ spent pool utxo_id = true ->
  Blockchain.spend pool utxo_id = pool.
Proof.
  unfold spent, Blockchain.spend. intros [H|H].
  - rewrite H. reflexivity.
  - destruct (pool !! utxo_id) as [u|] eqn:Hu; [|reflexivity].
    apply insert_id. rewrite Hu. destruct u as [tid a sp]. simpl in H. subst sp. reflexivity.
Qed.

Lemma spend_all_spent_id ids pool :
  (forall utxo_id, In utxo_id ids -> pool !! utxo_id = None \/ spent pool utxo_id = true) ->
  fold_left Blockchain.spend ids pool = pool.
Proof.
  induction ids as [|x ids IH]; intros H; simpl; [reflexivity|].
  rewrite spend_spent_id by (apply H; left; reflexivity).
  apply IH. intros utxo_id Hin. apply H. right. exact Hin.
Qed.

(** X15. Spending again is accepted in silence and changes nothing: a
    transaction without outputs whose inputs are all either absent from
    the pool or already spent leaves the pool exactly as it was. *)
Theorem respending_changes_nothing pool transaction :
  Transaction.output_utxos transaction = [] ->
  (forall utxo_id, In utxo_id (Transaction.input_utxos transaction) ->
     pool !! utxo_id = None \/ spent pool utxo_id = true) ->
  Blockchain.apply_transaction pool transaction = pool.
Proof.
  intros Hout Hin. rewrite apply_transaction_outputs, Hout. simpl.
  apply spend_all_spent_id, Hin.
Qed.

Lemma respending_changes_nothing_witness :
  Blockchain.apply_transaction (Blockchain.utxo_pool Scenario.m2) Scenario.t2
  = Blockchain.utxo_pool Scenario.m2.
Proof.
  apply respending_changes_nothing.
  - reflexivity.
  - intros utxo_id [<-|[]]. right. vm_compute. reflexivity.
Defined.

Lemma spend_all_origin ids pool utxo_id u :
  fold_left Blockchain.spend ids pool !! utxo_id = Some u ->
  exists u0, pool !! utxo_id = Some u0 /\
             UTXO.transaction_id u = UTXO.transaction_id u0 /\
             UTXO.amount u = UTXO.amount u0.
Proof.
  destruct (in_dec String.string_dec utxo_id ids) as [Hin|Hin].
  - rewrite spend_all_lookup_input by exact Hin.
    destruct (pool !! utxo_id) as [u0|]; [|discriminate].
    intros [= <-]. exists u0. auto.
  - rewrite spend_all_lookup_other by exact Hin. intros H. exists u. auto.
Qed.

Lemma apply_transactions_origin txs pool utxo_id u :
  fold_left Blockchain.apply_transaction txs pool !! utxo_id = Some u ->
  (exists tx, In tx txs /\ created_by tx utxo_id u) \/
  (exists u0, pool !! utxo_id = Some u0 /\
              UTXO.transaction_id u = UTXO.transaction_id u0 /\
              UTXO.amount u = UTXO.amount u0).
Proof.
  revert pool. induction txs as [|tx txs IH]; intros pool H; simpl in H.
  - right. exists u. auto.
  - destruct (IH _ H) as [(tx' & Hin & Hc)|(u1 & Hu1 & Htid & Hamount)].
    + left. exists tx'. split; [right; exact Hin|exact Hc].
    + destruct (decide (head (Transaction.output_utxos tx) = Some utxo_id)) as [Hout|Hout].
      * rewrite apply_transaction_lookup_output in Hu1 by exact Hout.
        injection Hu1 as <-. left. exists tx. split; [left; reflexivity|].
        split; [exact Hout|]. split; [exact Htid|exact Hamount].
      * rewrite apply_transaction_lookup_spend in Hu1 by exact Hout.
        apply spend_all_origin in Hu1 as (u0 & Hu0 & Htid0 & Hamount0).
        right. exists u0. split; [exact Hu0|]. split; congruence.
Qed.

Lemma reachable_pool_origin blockchain utxo_id u :
  reachable blockchain ->
  Blockchain.utxo_pool blockchain !! utxo_id = Some u ->
  exists block tx,
    In block (Blockchain.chain blockchain) /\
    In tx (Block.transactions block) /\
    created_by tx utxo_id u.
Proof.
  intros H. revert u.
  induction H as [now|bc tx H IH|bc now fuel H IH|bc block H IH]; intros u Hu.
  - rewrite init_unfold in Hu. simpl in Hu. rewrite lookup_empty in Hu. discriminate.
  - apply IH. exact Hu.
  - destruct (mine_block_cases now fuel bc) as [Hsame|[b Hb]].
    + rewrite Hsame in Hu |- *. apply IH. exact Hu.
    + apply mine_block_return in Hb as (lb & _ & _ & _ & Hst).
      rewrite Hst in Hu |- *. simpl in Hu |- *.
      destruct (apply_transactions_origin _ _ _ _ Hu)
        as [(tx & Hin & Hc)|(u0 & Hu0 & Htid & Hamount)].
      * exists b, tx. split; [apply in_or_app; right; left; reflexivity|]. auto.
      * destruct (IH _ Hu0) as (block & tx & Hblock & Hin & Hout & Htid0 & Hamount0).
        exists block, tx. split; [apply in_or_app; left; exact Hblock|].
        split; [exact Hin|]. split; [exact Hout|]. split; congruence.
  - destruct (add_block_cases block bc) as [Hsame|Hb].
    + rewrite Hsame in Hu |- *. apply IH. exact Hu.
    + apply add_block_return in Hb as (lb & _ & _ & _ & _ & Hst).
      rewrite Hst in Hu |- *. simpl in Hu |- *.
      destruct (apply_transactions_origin _ _ _ _ Hu)
        as [(tx & Hin & Hc)|(u0 & Hu0 & Htid & Hamount)].
      * exists block, tx. split; [apply in_or_app; right; left; reflexivity|]. auto.
      * destruct (IH _ Hu0) as (block' & tx & Hblock & Hin & Hout & Htid0 & Hamount0).
        exists block', tx. split; [apply in_or_app; left; exact Hblock|].
        split; [exact Hin|]. split; [exact Hout|]. split; congruence.
Qed.

(** X16. Every entry of the UTXO pool of a reachable ledger comes from
    the chain: some transaction in some block of the chain lists the
    identifier first among its outputs and gave the entry its owner and
    its amount.  A ledger whose chain is the genesis block alone has an
    empty pool. *)
Theorem utxo_entries_come_from_chain blockchain :
  reachable blockchain ->
  (forall utxo_id u,
      Blockchain.utxo_pool blockchain !! utxo_id = Some u ->
      exists block tx,
        In block (Blockchain.chain blockchain) /\
        In tx (Block.transactions block) /\
        created_by tx utxo_id u) /\
  (length (Blockchain.chain blockchain) = 1%nat -> Blockchain.utxo_pool blockchain = ∅).
Proof.
  intros H. split.
  - intros utxo_id u. apply reachable_pool_origin, H.
  - intros Hlen. apply map_empty. intros utxo_id.
    destruct (Blockchain.utxo_pool blockchain !! utxo_id) as [u|] eqn:Hu; [|reflexivity].
    destruct (reachable_pool_origin _ _ _ H Hu) as (block & tx & Hblock & Hin & _).
    pose proof H as H'. apply reachable_evolves in H' as [now H'].
    destruct (evolves_chain_prefix _ _ H') as [[k Hk] _].
    rewrite init_unfold in Hk. simpl in Hk. rewrite Hk in Hlen, Hblock.
    destruct k; [|discriminate].
    destruct Hblock as [<-|[]]. destruct Hin.
Qed.

Lemma utxo_entries_come_from_chain_witness :
  exists block tx,
    In block (Blockchain.chain Scenario.m1) /\
    In tx (Block.transactions block) /\
    created_by tx "u1" (UTXO.mk "t1" 10 false).
Proof.
  apply (proj1 (utxo_entries_come_from_chain Scenario.m1
                  (reachable_mine_block _ 98394 1
                     (reachable_new_transaction _ Scenario.t1 (reachable_init 0))))).
  vm_compute. reflexivity.
Defined.

(** ** Verification and the read-only endpoints *)

Lemma fromhex_hex_byte (b : byte) rest :
  fromhex_chars (list_ascii_of_string (SHA256.hex_of 2 (Z.of_N (Byte.to_N b))) ++ rest)
  = match fromhex_chars rest with
    | Return bs => Return (b :: bs)
    | o => o
    end.
Proof. destruct b; reflexivity. Qed.

Lemma fromhex_hex bs : bytes_fromhex (bytes_hex bs) = Return bs.
Proof.
  unfold bytes_fromhex, bytes_hex. rewrite list_ascii_of_string_of_list_ascii.
  induction bs as [|b bs IH]; [reflexivity|].
  change (fromhex_chars
            (list_ascii_of_string (SHA256.hex_of 2 (Z.of_N (Byte.to_N b)))
             ++ flat_map (fun b => list_ascii_of_string (SHA256.hex_of 2 (Z.of_N (Byte.to_N b)))) bs)
          = Return (b :: bs)).
  rewrite fromhex_hex_byte, IH. reflexivity.
Qed.

Lemma check_inputs_spendable input_utxos blockchain :
  all_spendable (Blockchain.utxo_pool blockchain) input_utxos <->
  fst (check_inputs input_utxos blockchain) = Return tt.
Proof.
  unfold all_spendable.
  induction input_utxos as [|utxo_id rest IH]; simpl.
  - split; [reflexivity|]. intros _ utxo_id [].
  - unfold bind, get.
    destruct (Blockchain.utxo_pool blockchain !! utxo_id) as [u|] eqn:Hu.
    + destruct (UTXO.is_spent u) eqn:Hs.
      * split; [|discriminate]. intros H.
        destruct (H utxo_id (or_introl eq_refl)) as (u' & Hu' & Hs'). congruence.
      * rewrite <- IH. split.
        -- intros H utxo_id' Hin. apply H. right. exact Hin.
        -- intros H utxo_id' [<-|Hin]; [eauto|apply H, Hin].
    + split; [|discriminate]. intros H.
      destruct (H utxo_id (or_introl eq_refl)) as (u' & Hu' & _). congruence.
Qed.

Lemma check_inputs_first_bad good bad rest blockchain :
  all_spendable (Blockchain.utxo_pool blockchain) good ->
  Blockchain.utxo_pool blockchain !! bad = None \/
  spent (Blockchain.utxo_pool blockchain) bad = true ->
  check_inputs (good ++ bad :: rest) blockchain
  = (Raise (UnspentInputMissing bad), blockchain).
Proof.
  unfold all_spendable, spent. intros Hgood Hbad.
  induction good as [|utxo_id good IH]; simpl; unfold bind, get.
  - destruct (Blockchain.utxo_pool blockchain !! bad) as [u|].
    + destruct Hbad as [Hbad|Hbad]; [discriminate|]. rewrite Hbad. reflexivity.
    + reflexivity.
  - destruct (Hgood utxo_id (or_introl eq_refl)) as (u & -> & ->).
    apply IH. intros utxo_id' Hin. apply Hgood. right. exact Hin.
Qed.

Lemma apply_transactions_keep_spent_head txs pool utxo_id :
  (forall tx, In tx txs -> head (Transaction.output_utxos tx) <> Some utxo_id) ->
  spent pool utxo_id = true ->
  spent (fold_left Blockchain.apply_transaction txs pool) utxo_id = true.
Proof.
  revert pool. induction txs as [|tx txs IH]; intros pool Hout H; simpl; [exact H|].
  apply IH; [intros tx' Hin; apply Hout; right; exact Hin|].
  unfold spent in *.
  rewrite apply_transaction_lookup_spend by (apply Hout; left; reflexivity).
  destruct (in_dec String.string_dec utxo_id (Transaction.input_utxos tx)).
  - rewrite spend_all_lookup_input by assumption.
    destruct (pool !! utxo_id); [reflexivity|discriminate].
  - rewrite spend_all_lookup_other by assumption. exact H.
Qed.

Lemma apply_transactions_spend txs pool utxo_id :
  is_Some (pool !! utxo_id) ->
  (exists tx, In tx txs /\ In utxo_id (Transaction.input_utxos tx)) ->
  (forall tx, In tx txs -> head (Transaction.output_utxos tx) <> Some utxo_id) ->
  spent (fold_left Blockchain.apply_transaction txs pool) utxo_id = true.
Proof.
  revert pool. induction txs as [|tx txs IH]; intros pool Hsome (tx' & Hin & Hinput) Hout.
  - destruct Hin.
  - simpl.
    destruct (in_dec String.string_dec utxo_id (Transaction.input_utxos tx)) as [Hhere|Hhere].
    + apply apply_transactions_keep_spent_head;
        [intros tx'' Hin''; apply Hout; right; exact Hin''|].
      unfold spent.
      rewrite apply_transaction_lookup_spend by (apply Hout; left; reflexivity).
      rewrite spend_all_lookup_input by exact Hhere.
      destruct Hsome as [u ->]. reflexivity.
    + apply IH.
      * rewrite apply_transaction_lookup_spend by (apply Hout; left; reflexivity).
        rewrite spend_all_lookup_other by exact Hhere. exact Hsome.
      * destruct Hin as [->|Hin]; [destruct (Hhere Hinput)|]. exists tx'. auto.
      * intros tx'' Hin''. apply Hout. right. exact Hin''.
Qed.

Section VerificationProperties.
Variable VerifyingKey : Type.
Variable VerifyingKey_from_string : bytes -> outcome VerifyingKey.
Variable VerifyingKey_verify : VerifyingKey -> bytes -> bytes -> outcome bool.
Variable SigningKey : Type.
Variable SigningKey_sign : SigningKey -> bytes -> outcome bytes.

(** X17. [/verify_transaction], [/chain] and [/utxo_pool] leave the
    ledger exactly as it is, whatever they answer: checking a
    transaction does not consume its inputs. *)
Theorem reading_endpoints_change_nothing transaction blockchain :
  snd (verify_transaction VerifyingKey_from_string VerifyingKey_verify transaction blockchain)
  = blockchain /\
  snd (get_chain blockchain) = blockchain /\
  snd (get_utxo_pool blockchain) = blockchain.
Proof.
  split; [|split; reflexivity].
  apply (verify_transaction_pure VerifyingKey VerifyingKey_from_string VerifyingKey_verify).
Qed.

(** X18. The inputs are checked first and in order: the first input
    that is missing from the pool or already spent is reported as an
    invalid or spent UTXO, whatever the sender and the signature are. *)
Theorem verify_transaction_first_bad_input transaction blockchain good bad rest :
  Transaction.input_utxos transaction = good ++ bad :: rest ->
  all_spendable (Blockchain.utxo_pool blockchain) good ->
  Blockchain.utxo_pool blockchain !! bad = None \/
  spent (Blockchain.utxo_pool blockchain) bad = true ->
  verify_transaction VerifyingKey_from_string VerifyingKey_verify transaction blockchain
  = (Raise (UnspentInputMissing bad), blockchain).
Proof.
  intros Hinputs Hgood Hbad. unfold verify_transaction, bind.
  rewrite Hinputs, (check_inputs_first_bad good bad rest blockchain Hgood Hbad). reflexivity.
Qed.

(** X19. [/verify_transaction] answers that a transaction is valid
    exactly when every input is in the pool and unspent, the sender and
    the signature are hexadecimal, the sender decodes to a key, and the
    verifier accepts the signature for the serialised transaction. *)
Theorem verify_transaction_succeeds_iff transaction blockchain :
  fst (verify_transaction VerifyingKey_from_string VerifyingKey_verify transaction blockchain)
  = Return tt <->
  all_spendable (Blockchain.utxo_pool blockchain) (Transaction.input_utxos transaction) /\
  exists key_bytes public_key sig,
    bytes_fromhex (Transaction.sender transaction) = Return key_bytes /\
    VerifyingKey_from_string key_bytes = Return public_key /\
    bytes_fromhex (Transaction.signature transaction) = Return sig /\
    VerifyingKey_verify public_key sig (encode (signed_data transaction)) = Return true.
Proof.
  rewrite check_inputs_spendable.
  pose proof (check_inputs_pure (Transaction.input_utxos transaction) blockchain) as Hpure.
  unfold verify_transaction, bind, lift, verify_signature.
  destruct (check_inputs _ blockchain) as [[[]|e|] s']; simpl in Hpure; subst s'; simpl;
    try (split; [discriminate|intros [H _]; discriminate H]).
  destruct (bytes_fromhex (Transaction.sender transaction)) as [kb|e|]; simpl;
    try (split; [discriminate|intros (_ & kb' & pk & sb & H & _); discriminate H]).
  destruct (VerifyingKey_from_string kb) as [pk|e|] eqn:Hkey; simpl;
    try (split; [discriminate|
                 intros (_ & kb' & pk' & sb & [= <-] & H & _); congruence]).
  destruct (bytes_fromhex (Transaction.signature transaction)) as [sb|e|]; simpl;
    try (split; [try discriminate; destruct e; discriminate|
                 intros (_ & kb' & pk' & sb' & _ & _ & H & _); discriminate H]).
  destruct (VerifyingKey_verify pk sb _) as [[]|e|] eqn:Hverify; simpl.
  - split; [|reflexivity]. intros _. split; [reflexivity|]. exists kb, pk, sb. auto.
  - split; [discriminate|].
    intros (_ & kb' & pk' & sb' & [= <-] & Hk & [= <-] & H). congruence.
  - split; [destruct e; discriminate|].
    intros (_ & kb' & pk' & sb' & [= <-] & Hk & [= <-] & H). congruence.
  - split; [discriminate|].
    intros (_ & kb' & pk' & sb' & [= <-] & Hk & [= <-] & H). congruence.
Qed.

(** X20. With spendable inputs and a sender that decodes to a key, a
    hexadecimal signature that the verifier refuses, by raising
    [BadSignatureError] or by answering [False], is reported as an
    invalid transaction signature. *)
Theorem verify_transaction_rejects_bad_signature
    transaction blockchain key_bytes public_key sig :
  all_spendable (Blockchain.utxo_pool blockchain) (Transaction.input_utxos transaction) ->
  bytes_fromhex (Transaction.sender transaction) = Return key_bytes ->
  VerifyingKey_from_string key_bytes = Return public_key ->
  bytes_fromhex (Transaction.signature transaction) = Return sig ->
  VerifyingKey_verify public_key sig (encode (signed_data transaction))
    = Raise BadSignatureError \/
  VerifyingKey_verify public_key sig (encode (signed_data transaction)) = Return false ->
  verify_transaction VerifyingKey_from_string VerifyingKey_verify transaction blockchain
  = (Raise InvalidSignature, blockchain).
Proof.
  intros Hinputs Hsender Hkey Hsig Hverify.
  apply check_inputs_spendable in Hinputs.
  pose proof (check_inputs_pure (Transaction.input_utxos transaction) blockchain) as Hpure.
  unfold verify_transaction, bind, lift, verify_signature.
  destruct (check_inputs _ blockchain) as [o s']. simpl in Hinputs, Hpure. subst o s'.
  rewrite Hsender, Hkey, Hsig.
  destruct Hverify as [-> | ->]; reflexivity.
Qed.

(** X21. What [sign_data] produces, [verify_signature] accepts, as long
    as the package's verifier accepts the package's signature: the
    hexadecimal text of the signature decodes back to the signature. *)
Theorem sign_then_verify private_key public_key data sig :
  SigningKey_sign private_key (encode data) = Return sig ->
  VerifyingKey_verify public_key sig (encode data) = Return true ->
  sign_data SigningKey_sign private_key data = Return (bytes_hex sig) /\
  bytes_fromhex (bytes_hex sig) = Return sig /\
  verify_signature VerifyingKey_verify public_key data (bytes_hex sig) = Return true.
Proof.
  intros Hsign Hverify. unfold sign_data, verify_signature.
  rewrite Hsign, fromhex_hex, Hverify. auto.
Qed.

(** X22. Once [/add_block] has accepted a block that spends an
    identifier of the pool and does not create it again, a
    transaction whose first input is that identifier no longer
    verifies: it is reported as an invalid or spent UTXO. *)
Theorem spent_input_no_longer_verifies block blockchain blockchain' utxo_id transaction rest :
  is_Some (Blockchain.utxo_pool blockchain !! utxo_id) ->
  (exists tx, In tx (Block.transactions block) /\ In utxo_id (Transaction.input_utxos tx)) ->
  (forall tx, In tx (Block.transactions block) ->
              head (Transaction.output_utxos tx) <> Some utxo_id) ->
  add_block block blockchain = (Return block, blockchain') ->
  Transaction.input_utxos transaction = utxo_id :: rest ->
  verify_transaction VerifyingKey_from_string VerifyingKey_verify transaction blockchain'
  = (Raise (UnspentInputMissing utxo_id), blockchain').
Proof.
  intros Hsome Hspends Hout Hadd Hinputs.
  apply add_block_return in Hadd as (lb & _ & _ & _ & _ & ->).
  unfold verify_transaction, bind.
  rewrite Hinputs, (check_inputs_first_bad [] utxo_id rest); [reflexivity|intros ? []|].
  right. simpl. apply apply_transactions_spend; assumption.
Qed.
End VerificationProperties.

Lemma scenario_m1_u1 :
  Blockchain.utxo_pool Scenario.m1 !! "u1" = Some (UTXO.mk "t1" 10 false).
Proof. vm_compute. reflexivity. Qed.

Lemma scenario_add_b2 :
  add_block Scenario.b2 Scenario.m1
  = (Return Scenario.b2, snd (add_block Scenario.b2 Scenario.m1)).
Proof.
  rewrite (surjective_pairing (add_block Scenario.b2 Scenario.m1)) at 1.
  replace (fst (add_block Scenario.b2 Scenario.m1)) with (Return Scenario.b2)
    by (vm_compute; reflexivity).
  reflexivity.
Qed.

Lemma verify_transaction_first_bad_input_witness :
  verify_transaction ToyEcdsa.from_string ToyEcdsa.verify ToyEcdsa.t_spend Scenario.m2
  = (Raise (UnspentInputMissing "u1"), Scenario.m2).
Proof.
  apply (verify_transaction_first_bad_input ToyEcdsa.VerifyingKey ToyEcdsa.from_string
           ToyEcdsa.verify ToyEcdsa.t_spend Scenario.m2 [] "u1" []).
  - reflexivity.
  - intros utxo_id [].
  - right. vm_compute. reflexivity.
Defined.

Lemma verify_transaction_succeeds_iff_witness :
  fst (verify_transaction ToyEcdsa.from_string ToyEcdsa.verify ToyEcdsa.t_signed Scenario.m1)
  = Return tt.
Proof.
  apply (verify_transaction_succeeds_iff ToyEcdsa.VerifyingKey ToyEcdsa.from_string
           ToyEcdsa.verify ToyEcdsa.t_signed Scenario.m1).
  split.
  - intros utxo_id [<-|[]]. exists (UTXO.mk "t1" 10 false).
    split; [exact scenario_m1_u1|reflexivity].
  - exists ToyEcdsa.key, ToyEcdsa.key,
      (ToyEcdsa.key ++ [ToyEcdsa.tag (encode (signed_data ToyEcdsa.t_signed))]).
    split; [vm_compute; reflexivity|]. split; [vm_compute; reflexivity|].
    split; vm_compute; reflexivity.
Defined.

Lemma verify_transaction_rejects_bad_signature_witness :
  verify_transaction ToyEcdsa.from_string ToyEcdsa.verify ToyEcdsa.t_spend Scenario.m1
  = (Raise InvalidSignature, Scenario.m1).
Proof.
  apply (verify_transaction_rejects_bad_signature ToyEcdsa.VerifyingKey ToyEcdsa.from_string
           ToyEcdsa.verify ToyEcdsa.t_spend Scenario.m1 ToyEcdsa.key ToyEcdsa.key
           [byte_of_Z 0]).
  - intros utxo_id [<-|[]]. exists (UTXO.mk "t1" 10 false).
    split; [exact scenario_m1_u1|reflexivity].
  - vm_compute. reflexivity.
  - vm_compute. reflexivity.
  - vm_compute. reflexivity.
  - left. vm_compute. reflexivity.
Defined.

Lemma sign_then_verify_witness :
  verify_signature ToyEcdsa.verify ToyEcdsa.key "hello"
    (bytes_hex (ToyEcdsa.key ++ [ToyEcdsa.tag (encode "hello")])) = Return true.
Proof.
  apply (sign_then_verify ToyEcdsa.VerifyingKey ToyEcdsa.verify ToyEcdsa.SigningKey
           ToyEcdsa.sign ToyEcdsa.key ToyEcdsa.key "hello").
  - reflexivity.
  - vm_compute. reflexivity.
Defined.

Lemma spent_input_no_longer_verifies_witness :
  verify_transaction ToyEcdsa.from_string ToyEcdsa.verify ToyEcdsa.t_signed
    (snd (add_block Scenario.b2 Scenario.m1))
  = (Raise (UnspentInputMissing "u1"), snd (add_block Scenario.b2 Scenario.m1)).
Proof.
  apply (spent_input_no_longer_verifies ToyEcdsa.VerifyingKey ToyEcdsa.from_string
           ToyEcdsa.verify Scenario.b2 Scenario.m1 _ "u1" ToyEcdsa.t_signed []).
  - rewrite scenario_m1_u1. eauto.
  - exists Scenario.t2. split; left; reflexivity.
  - intros tx [<-|[]]. discriminate.
  - exact scenario_add_b2.
  - reflexivity.
Defined.

(** ** The length of the chain *)

(** X23. On a reachable ledger [/chain] reports the chain with its
    number of blocks, which is at least 1, and changes nothing; on a
    ledger grown by submissions and mining alone that number is the
    index of the last block plus one. *)
Theorem get_chain_reports_length blockchain :
  reachable blockchain ->
  exists n last_block,
    get_chain blockchain = (Return (n, Blockchain.chain blockchain), blockchain) /\
    1 <= n /\
    last (Blockchain.chain blockchain) = Some last_block /\
    (mined_only blockchain -> n = Block.index last_block + 1).
Proof.
  intros Hreach. destruct (reachable_tip _ Hreach) as (lb & Hlast).
  exists (Z.of_nat (length (Blockchain.chain blockchain))), lb.
  pose proof Hlast as Hlookup. rewrite last_lookup in Hlookup.
  assert (length (Blockchain.chain blockchain) <> 0%nat) as Hlen.
  { intros Hz. rewrite Hz in Hlookup. simpl in Hlookup.
    apply lookup_lt_Some in Hlookup. lia. }
  split; [reflexivity|]. split; [lia|]. split; [exact Hlast|].
  intros Hmined. destruct (mined_only_positions _ _ _ Hmined Hlookup) as [Hindex _]. lia.
Qed.

Lemma get_chain_reports_length_witness :
  exists n last_block,
    get_chain Scenario.m1 = (Return (n, Blockchain.chain Scenario.m1), Scenario.m1) /\
    1 <= n /\
    last (Blockchain.chain Scenario.m1) = Some last_block /\
    (mined_only Scenario.m1 -> n = Block.index last_block + 1).
Proof.
  apply (get_chain_reports_length Scenario.m1).
  exact (reachable_mine_block _ 98394 1
           (reachable_new_transaction _ Scenario.t1 (reachable_init 0))).
Defined.

(** ** Mining and verification on whole runs *)

(** C5 holds up to the application of the block.  On the run that
    submits [t_two] and mines, the queue is not empty and no error is
    raised, the block carries the queue, it is appended, and the queue
    is cleared; but the block is only partly applied to the UTXO pool:
    of the two outputs [t_two] lists, [u1] gets its entry and [u2]
    gets none. *)
Theorem mine_block_applies_first_output_only :
  reachable Scenario.p_two /\
  Blockchain.pending_transactions Scenario.p_two = [Scenario.t_two] /\
  exists b,
    mine_block 30169 1 Scenario.p_two = (Return b, Scenario.m_two) /\
    Block.transactions b = Blockchain.pending_transactions Scenario.p_two /\
    Blockchain.chain Scenario.m_two = Blockchain.chain Scenario.p_two ++ [b] /\
    Blockchain.pending_transactions Scenario.m_two = [] /\
    Transaction.output_utxos Scenario.t_two = ["u1"; "u2"] /\
    Blockchain.utxo_pool Scenario.m_two !! "u1" = Some (UTXO.mk "t4" 10 false) /\
    Blockchain.utxo_pool Scenario.m_two !! "u2" = None.
Proof.
  split; [exact (reachable_new_transaction _ Scenario.t_two (reachable_init 0))|].
  split; [reflexivity|].
  destruct (mine_block 30169 1 Scenario.p_two) as [o blockchain'] eqn:Hmine.
  assert (o = fst (mine_block 30169 1 Scenario.p_two)) as Ho by (rewrite Hmine; reflexivity).
  assert (blockchain' = Scenario.m_two) as ->
    by (unfold Scenario.m_two; rewrite Hmine; reflexivity).
  vm_compute in Ho. subst o. eexists. split; [reflexivity|].
  pose proof Hmine as Hreturn.
  apply mine_block_return in Hreturn as (lb & _ & _ & _ & Hstate).
  split; [reflexivity|]. split; [rewrite Hstate; reflexivity|].
  split; [rewrite Hstate; reflexivity|]. split; [reflexivity|].
  split; vm_compute; reflexivity.
Qed.

Lemma string_concat_snoc sep x l y :
  String.concat sep ((x :: l) ++ [y]) = String.concat sep (x :: l) +:+ sep +:+ y.
Proof.
  revert x. induction l as [|x' l IH]; intros x; [reflexivity|].
  change (x +:+ sep +:+ String.concat sep ((x' :: l) ++ [y])
          = (x +:+ sep +:+ String.concat sep (x' :: l)) +:+ sep +:+ y).
  rewrite IH, !string_app_assoc. reflexivity.
Qed.

Lemma encode_app a b : encode (a +:+ b) = encode a ++ encode b.
Proof. unfold encode. rewrite list_ascii_of_string_app. apply flat_map_app. Qed.

(** The string that is checked is the one the specification asks for
    with the signature item put in before the closing brace. *)
Lemma signed_data_unsigned_data tx :
  exists public_part,
    unsigned_data tx = public_part +:+ "}" /\
    signed_data tx = public_part +:+ (", " +:+ Json.item (signature_item tx) +:+ "}").
Proof.
  exists ("{" +:+ String.concat ", " (List.map Json.item (public_items tx))).
  split; [reflexivity|].
  change (signed_data tx)
    with ("{" +:+ String.concat ", "
                    (List.map Json.item (public_items tx ++ [signature_item tx])) +:+ "}").
  unfold public_items. rewrite map_app.
  cbn [List.map]. rewrite string_concat_snoc, !string_app_assoc. reflexivity.
Qed.

Lemma signed_data_differs tx :
  signed_data tx <> unsigned_data tx /\
  encode (signed_data tx) <> encode (unsigned_data tx).
Proof.
  destruct (signed_data_unsigned_data tx) as (public_part & -> & ->).
  assert (encode (public_part +:+ ", " +:+ Json.item (signature_item tx) +:+ "}")
          <> encode (public_part +:+ "}")) as Hne.
  { rewrite !encode_app. intros H. apply app_inv_head in H. discriminate H. }
  split; [|exact Hne]. intros H. apply Hne. rewrite H. reflexivity.
Qed.

Section SignedOverPublicFields.
Variable VerifyingKey : Type.
Variable VerifyingKey_from_string : bytes -> outcome VerifyingKey.
Variable VerifyingKey_verify : VerifyingKey -> bytes -> bytes -> outcome bool.

Lemma signature_over_public_fields_run
    transaction blockchain key_bytes public_key sig :
  all_spendable (Blockchain.utxo_pool blockchain) (Transaction.input_utxos transaction) ->
  bytes_fromhex (Transaction.sender transaction) = Return key_bytes ->
  VerifyingKey_from_string key_bytes = Return public_key ->
  bytes_fromhex (Transaction.signature transaction) = Return sig ->
  VerifyingKey_verify public_key sig (encode (unsigned_data transaction)) = Return true ->
  (forall data : bytes,
      data <> encode (unsigned_data transaction) ->
      VerifyingKey_verify public_key sig data = Raise BadSignatureError) ->
  verify_transaction VerifyingKey_from_string VerifyingKey_verify transaction blockchain
  = (Raise InvalidSignature, blockchain) /\
  verify_signature VerifyingKey_verify public_key (signed_data transaction)
    (Transaction.signature transaction) = Return false /\
  verify_signature VerifyingKey_verify public_key (unsigned_data transaction)
    (Transaction.signature transaction) = Return true /\
  signed_data transaction <> unsigned_data transaction /\
  exists public_part,
    unsigned_data transaction = public_part +:+ "}" /\
    signed_data transaction
    = public_part +:+ (", " +:+ Json.item (signature_item transaction) +:+ "}").
Proof.
  intros Hinputs Hsender Hkey Hsig Hgood Honly.
  destruct (signed_data_differs transaction) as [Hne Hne'].
  pose proof (Honly _ Hne') as Hbad.
  assert (verify_signature VerifyingKey_verify public_key (signed_data transaction)
            (Transaction.signature transaction) = Return false) as Hsigned
    by (unfold verify_signature; rewrite Hsig, Hbad; reflexivity).
  split; [|split; [exact Hsigned|split; [|split; [exact Hne|]]]].
  - apply check_inputs_spendable in Hinputs.
    pose proof (check_inputs_pure (Transaction.input_utxos transaction) blockchain) as Hpure.
    unfold verify_transaction, bind, lift.
    destruct (check_inputs _ blockchain) as [o s']. simpl in Hinputs, Hpure. subst o s'.
    rewrite Hsender, Hkey, Hsigned. reflexivity.
  - unfold verify_signature. rewrite Hsig, Hgood. reflexivity.
  - apply signed_data_unsigned_data.
Qed.

(** C7 fails on every run that gets as far as the signature.  Take a
    transaction with spendable inputs, a sender that decodes to a key,
    and a signature that is good for the encoding of its public fields
    without the signature, and for no other message.  The string
    [/verify_transaction] hands to the verifier is a different one, the
    encoding with the signature in it, and the transaction is refused
    as having an invalid signature. *)
Theorem verify_transaction_rejects_signature_over_public_fields
    transaction blockchain key_bytes public_key sig :
  all_spendable (Blockchain.utxo_pool blockchain) (Transaction.input_utxos transaction) ->
  bytes_fromhex (Transaction.sender transaction) = Return key_bytes ->
  VerifyingKey_from_string key_bytes = Return public_key ->
  bytes_fromhex (Transaction.signature transaction) = Return sig ->
  VerifyingKey_verify public_key sig (encode (unsigned_data transaction)) = Return true ->
  (forall data : bytes,
      data <> encode (unsigned_data transaction) ->
      VerifyingKey_verify public_key sig data = Raise BadSignatureError) ->
  verify_transaction VerifyingKey_from_string VerifyingKey_verify transaction blockchain
  = (Raise InvalidSignature, blockchain) /\
  verify_signature VerifyingKey_verify public_key (signed_data transaction)
    (Transaction.signature transaction) = Return false /\
  verify_signature VerifyingKey_verify public_key (unsigned_data transaction)
    (Transaction.signature transaction) = Return true /\
  signed_data transaction <> unsigned_data transaction /\
  exists public_part,
    unsigned_data transaction = public_part +:+ "}" /\
    signed_data transaction
    = public_part +:+ (", " +:+ Json.item (signature_item transaction) +:+ "}").
Proof.
  intros Hinputs Hsender Hkey Hsig Hgood Honly.
  destruct (signature_over_public_fields_run transaction blockchain key_bytes public_key sig
              Hinputs Hsender Hkey Hsig Hgood Honly)
    as (Hrun & Hsigned & Hunsigned & Hne & Hshape).
  split; [exact Hrun|]. split; [exact Hsigned|]. split; [exact Hunsigned|].
  split; [exact Hne|exact Hshape].
Qed.
End SignedOverPublicFields.

Lemma verify_transaction_rejects_signature_over_public_fields_witness :
  verify_transaction ToyEcdsa.from_string Signed.verify_whole Signed.t_whole Scenario.s0
  = (Raise InvalidSignature, Scenario.s0) /\
  verify_signature Signed.verify_whole ToyEcdsa.key (unsigned_data Signed.t_whole)
    (Transaction.signature Signed.t_whole) = Return true.
Proof.
  destruct (verify_transaction_rejects_signature_over_public_fields
              bytes ToyEcdsa.from_string Signed.verify_whole
              Signed.t_whole Scenario.s0 ToyEcdsa.key ToyEcdsa.key Signed.sig_whole)
    as (Hrun & _ & Hunsigned & _).
  - intros utxo_id [].
  - vm_compute. reflexivity.
  - vm_compute. reflexivity.
  - apply fromhex_hex.
  - vm_compute. reflexivity.
  - intros data Hdata. unfold Signed.verify_whole, Signed.sig_whole.
    destruct (List.list_eq_dec byte_eq_dec _ _) as [Heq|]; [|reflexivity].
    apply app_inv_head in Heq. destruct Hdata. symmetry. exact Heq.
  - split; [exact Hrun|exact Hunsigned].
Defined.

(** The same for the transaction signed with the private key 1, for
    any package in which that signature is good for the public fields
    and for nothing else. *)
Lemma real_signature_is_rejected
    (VerifyingKey : Type) (from_string : bytes -> outcome VerifyingKey)
    (verify : VerifyingKey -> bytes -> bytes -> outcome bool)
    blockchain public_key sig :
  from_string ToyEcdsa.key = Return public_key ->
  bytes_fromhex (Transaction.signature Signed.t_real) = Return sig ->
  verify public_key sig (encode (unsigned_data Signed.t_real)) = Return true ->
  (forall data : bytes,
      data <> encode (unsigned_data Signed.t_real) ->
      verify public_key sig data = Raise BadSignatureError) ->
  verify_transaction from_string verify Signed.t_real blockchain
  = (Raise InvalidSignature, blockchain).
Proof.
  intros Hkey Hsig Hgood Honly.
  apply (signature_over_public_fields_run
           VerifyingKey from_string verify Signed.t_real blockchain
           ToyEcdsa.key public_key sig); try assumption.
  - intros utxo_id [].
  - vm_compute. reflexivity.
Qed.
